(** * Circle drawer (7 GUIs): undo / redo change log and UI state machine

    Shallow embedding of [docs/circle-drawer/index.js].

    The script keeps its state in module-level variables ([selected],
    [changes], [changesUndone], [state.value]) and in the DOM (the circle
    elements, the children of the [svg] element, the [disabled] flag of the
    two buttons, the [hide] class of the menu and of the form).  All of it
    is gathered in one record [State]; every function of the script becomes
    a function on [State].  A function that can raise returns an [outcome],
    which keeps the state as the exception leaves it.

    Numbers.  The script only halves and doubles numbers ([r * 2],
    [diameter / 2]) and compares them with [!==].  They are modelled as
    canonical rationals [Qc]; on the binary floating point numbers of
    JavaScript halving and doubling are exact within range, so both agree
    on the values a slider or an attribute can hold. *)

From Stdlib Require Import QArith Qcanon.
From stdpp Require Import base list strings.


(** ** Data *)

(** A circle element is referred to by its handle: its index in the list of
    all elements the script has created ([heap]). *)
Abbreviation handle := nat (only parsing).

Definition num (z : Z) : Qc := Q2Qc (inject_Z z).

Definition DEFAULT_DIAMETER : Qc := num 24.

(** The attributes [createCircle] writes, the [selected] class and the two
    listeners [addCircle] / [removeCircle] register and unregister. *)
Record Circle := mkCircle {
  attr_r : Qc;
  attr_cx : Qc;
  attr_cy : Qc;
  attr_fill : string;
  attr_stroke : string;
  class_selected : bool;
  on_click : bool;
  on_contextmenu : bool;
}.

(** [selected = { circle, diameter }] *)
Record Selection := mkSelection {
  circle : handle;
  diameter : Qc;
}.

(** The change records pushed by [logCircleAdd] and [logDiameterChange];
    [changeTypes] has these two tags and no other record is ever built, so
    the [default:] branch of the two replay switches has no counterpart. *)
Inductive Change :=
| CircleAdded (c : handle)
| DiameterChange (c : handle) (oldDiameter newDiameter : Qc).

Module states.
Definition default := "default".
Definition menuOpen := "menuOpen".
Definition formOpen := "formOpen".
End states.

Record State := mkState {
  selected : option Selection;
  changesUndone : list Change;
  changes : list Change;
  value : string;                  (* state.value *)
  heap : list Circle;              (* every circle element created so far *)
  svg_children : list handle;      (* children of elems.svg, in order *)
  svg_disabled : bool;             (* elems.svg has class "disabled" *)
  form_hidden : bool;              (* elems.form has class "hide" *)
  menu_hidden : bool;              (* elems.menu has class "hide" *)
  undo_disabled : bool;            (* elems.undo.disabled *)
  redo_disabled : bool;            (* elems.redo.disabled *)
  input_value : option Qc;         (* elems.input.value, None: as in the markup *)
  label_coords : option (Qc * Qc); (* the x and y shown by elems.label *)
}.

Inductive Error :=
| TypeError                 (* property access on null *)
| NotFoundError             (* removeChild of a node that is not a child *)
| ErrorMsg (msg : string).  (* throw Error(msg) *)

Inductive outcome :=
| Ok (s : State)
| Throw (e : Error) (s : State).

Definition andThen (o : outcome) (k : State -> outcome) : outcome :=
  match o with
  | Ok s => k s
  | Throw e s => Throw e s
  end.

Notation "o >>= k" := (andThen o k) (at level 50, left associativity).

(** The state an invocation leaves behind, whether it returned or raised. *)
Definition final (o : outcome) : State :=
  match o with
  | Ok s => s
  | Throw _ s => s
  end.

(** ** Field updates *)

Definition set_selected (v : option Selection) (s : State) : State :=
  mkState v (changesUndone s) (changes s) (value s) (heap s) (svg_children s)
    (svg_disabled s) (form_hidden s) (menu_hidden s) (undo_disabled s)
    (redo_disabled s) (input_value s) (label_coords s).

Definition set_changesUndone (v : list Change) (s : State) : State :=
  mkState (selected s) v (changes s) (value s) (heap s) (svg_children s)
    (svg_disabled s) (form_hidden s) (menu_hidden s) (undo_disabled s)
    (redo_disabled s) (input_value s) (label_coords s).

Definition set_changes (v : list Change) (s : State) : State :=
  mkState (selected s) (changesUndone s) v (value s) (heap s) (svg_children s)
    (svg_disabled s) (form_hidden s) (menu_hidden s) (undo_disabled s)
    (redo_disabled s) (input_value s) (label_coords s).

Definition set_value (v : string) (s : State) : State :=
  mkState (selected s) (changesUndone s) (changes s) v (heap s) (svg_children s)
    (svg_disabled s) (form_hidden s) (menu_hidden s) (undo_disabled s)
    (redo_disabled s) (input_value s) (label_coords s).

Definition set_heap (v : list Circle) (s : State) : State :=
  mkState (selected s) (changesUndone s) (changes s) (value s) v (svg_children s)
    (svg_disabled s) (form_hidden s) (menu_hidden s) (undo_disabled s)
    (redo_disabled s) (input_value s) (label_coords s).

Definition set_svg_children (v : list handle) (s : State) : State :=
  mkState (selected s) (changesUndone s) (changes s) (value s) (heap s) v
    (svg_disabled s) (form_hidden s) (menu_hidden s) (undo_disabled s)
    (redo_disabled s) (input_value s) (label_coords s).

Definition set_svg_disabled (v : bool) (s : State) : State :=
  mkState (selected s) (changesUndone s) (changes s) (value s) (heap s)
    (svg_children s) v (form_hidden s) (menu_hidden s) (undo_disabled s)
    (redo_disabled s) (input_value s) (label_coords s).

Definition set_form_hidden (v : bool) (s : State) : State :=
  mkState (selected s) (changesUndone s) (changes s) (value s) (heap s)
    (svg_children s) (svg_disabled s) v (menu_hidden s) (undo_disabled s)
    (redo_disabled s) (input_value s) (label_coords s).

Definition set_menu_hidden (v : bool) (s : State) : State :=
  mkState (selected s) (changesUndone s) (changes s) (value s) (heap s)
    (svg_children s) (svg_disabled s) (form_hidden s) v (undo_disabled s)
    (redo_disabled s) (input_value s) (label_coords s).

Definition set_undo_disabled (v : bool) (s : State) : State :=
  mkState (selected s) (changesUndone s) (changes s) (value s) (heap s)
    (svg_children s) (svg_disabled s) (form_hidden s) (menu_hidden s) v
    (redo_disabled s) (input_value s) (label_coords s).

Definition set_redo_disabled (v : bool) (s : State) : State :=
  mkState (selected s) (changesUndone s) (changes s) (value s) (heap s)
    (svg_children s) (svg_disabled s) (form_hidden s) (menu_hidden s)
    (undo_disabled s) v (input_value s) (label_coords s).

Definition set_form_fields (v : Qc) (xy : Qc * Qc) (s : State) : State :=
  mkState (selected s) (changesUndone s) (changes s) (value s) (heap s)
    (svg_children s) (svg_disabled s) (form_hidden s) (menu_hidden s)
    (undo_disabled s) (redo_disabled s) (Some v) (Some xy).

(** ** Element operations *)

Definition with_r (v : Qc) (c : Circle) : Circle :=
  mkCircle v (attr_cx c) (attr_cy c) (attr_fill c) (attr_stroke c)
    (class_selected c) (on_click c) (on_contextmenu c).

Definition with_class_selected (b : bool) (c : Circle) : Circle :=
  mkCircle (attr_r c) (attr_cx c) (attr_cy c) (attr_fill c) (attr_stroke c)
    b (on_click c) (on_contextmenu c).

Definition with_listeners (b : bool) (c : Circle) : Circle :=
  mkCircle (attr_r c) (attr_cx c) (attr_cy c) (attr_fill c) (attr_stroke c)
    (class_selected c) b b.

(** [h.setAttribute("r", v)], [h.classList.add/remove("selected")],
    [h.addEventListener] / [h.removeEventListener] for both listeners, and
    [h.getAttribute("r")].  The script only ever holds references to
    elements it has created; a handle outside the heap stands for no
    element: a write through it updates nothing, and a function that reads
    through it raises. *)
Definition setAttribute_r (h : handle) (v : Qc) (s : State) : State :=
  set_heap (alter (with_r v) h (heap s)) s.

Definition classList_selected (h : handle) (b : bool) (s : State) : State :=
  set_heap (alter (with_class_selected b) h (heap s)) s.

Definition set_listeners (h : handle) (b : bool) (s : State) : State :=
  set_heap (alter (with_listeners b) h (heap s)) s.

Definition getAttribute_r (h : handle) (s : State) : option Qc :=
  attr_r <$> heap s !! h.

(** [array.pop()]: the last element and the array without it. *)
Definition pop {A} (l : list A) : option (list A * A) :=
  match reverse l with
  | [] => None
  | x :: l' => Some (reverse l', x)
  end.

(** [hide], [show], [enable], [disable] on the elements of [elems]. *)
Definition hide_menu := set_menu_hidden true.
Definition show_menu := set_menu_hidden false.
Definition hide_form := set_form_hidden true.
Definition show_form := set_form_hidden false.
Definition enable_undo := set_undo_disabled false.
Definition disable_undo := set_undo_disabled true.
Definition enable_redo := set_redo_disabled false.
Definition disable_redo := set_redo_disabled true.
Definition disableSvg := set_svg_disabled true.
Definition enableSvg := set_svg_disabled false.

(** ** Functions of the script *)

Definition select (c : handle) (s : State) : outcome :=
  let s1 := classList_selected c true s in
  match getAttribute_r c s1 with
  | Some rv => Ok (set_selected (Some (mkSelection c (rv * num 2)%Qc)) s1)
  | None => Throw TypeError s1
  end.

Definition deselect (s : State) : outcome :=
  match selected s with
  | Some sel => Ok (set_selected None (classList_selected (circle sel) false s))
  | None => Throw TypeError s
  end.

Definition loadForm (s : State) : outcome :=
  match selected s with
  | Some sel =>
      match heap s !! circle sel with
      | Some c =>
          Ok (show_form (set_form_fields (diameter sel) (attr_cx c, attr_cy c) s))
      | None => Throw TypeError s
      end
  | None => Throw TypeError s
  end.

Definition undoDiameterChange (c : handle) (oldDiameter : Qc) : State -> State :=
  setAttribute_r c (oldDiameter / num 2)%Qc.

Definition redoDiameterChange (c : handle) (newDiameter : Qc) : State -> State :=
  setAttribute_r c (newDiameter / num 2)%Qc.

Definition resetChangesUndone (s : State) : State :=
  disable_redo (set_changesUndone [] s).

Definition logChange (change : Change) (s : State) : State :=
  enable_undo (set_changes (changes s ++ [change]) s).

Definition logCircleAdd (c : handle) : State -> State :=
  logChange (CircleAdded c).

Definition logDiameterChange (s : State) : outcome :=
  match selected s with
  | Some sel =>
      match getAttribute_r (circle sel) s with
      | Some rv =>
          let newDiameter := (rv * num 2)%Qc in
          let oldDiameter := diameter sel in
          if decide (newDiameter ≠ oldDiameter)
          then Ok (resetChangesUndone
                     (logChange (DiameterChange (circle sel) oldDiameter newDiameter) s))
          else Ok s
      | None => Throw TypeError s
      end
  | None => Throw TypeError s
  end.

(** [removeChild] raises when the node is not a child; the listeners are
    gone by then. *)
Definition removeCircle (c : handle) (s : State) : outcome :=
  let s1 := set_listeners c false s in
  if decide (c ∈ svg_children s1)
  then Ok (set_svg_children (filter (λ h, h ≠ c) (svg_children s1)) s1)
  else Throw NotFoundError s1.

(** [appendChild] moves a node that is already a child to the end. *)
Definition addCircle (c : handle) (s : State) : State :=
  let s1 := set_listeners c true s in
  set_svg_children (filter (λ h, h ≠ c) (svg_children s1) ++ [c]) s1.

(** [createCircle] returns the new element; here, its handle and the heap
    that holds it.  The radius attribute is set to [DEFAULT_DIAMETER]. *)
Definition createCircle (x y : Qc) (s : State) : handle * State :=
  (length (heap s),
   set_heap (heap s ++ [mkCircle DEFAULT_DIAMETER x y "transparent" "black"
                          false false false]) s).

Definition onStateChange (v : string) (s : State) : outcome :=
  if decide (v = states.default) then
    let s1 := if decide (changes s ≠ []) then enable_undo s else s in
    let s2 := if decide (changesUndone s1 ≠ []) then enable_redo s1 else s1 in
    deselect (enableSvg s2) >>= λ s3, Ok (hide_form (hide_menu s3))
  else if decide (v = states.menuOpen) then
    Ok (disableSvg (disable_redo (disable_undo (show_menu s))))
  else if decide (v = states.formOpen) then
    Ok s
  else
    Throw (ErrorMsg ("Unknown state: " ++ v)%string) s.

(** [state.set] *)
Definition state_set (newState : string) (s : State) : outcome :=
  onStateChange newState (set_value newState s).

(** ** DOM listeners *)

Definition onSvgClick (x y : Qc) (s : State) : outcome :=
  let '(c, s1) := createCircle x y s in
  Ok (resetChangesUndone (logCircleAdd c (addCircle c s1))).

Definition onCircleClick (s : State) : outcome := Ok s.

Definition onCircleRightClick (target : handle) (s : State) : outcome :=
  select target s >>= state_set states.menuOpen.

Definition onAdjustDiameterClick (s : State) : outcome :=
  loadForm s >>= λ s1, state_set states.formOpen (hide_menu s1).

Definition onMenuCloseClick (s : State) : outcome :=
  state_set states.default s.

Definition onDiameterInput (v : Qc) (s : State) : outcome :=
  match selected s with
  | Some sel => Ok (setAttribute_r (circle sel) (v / num 2)%Qc s)
  | None => Throw TypeError s
  end.

Definition onFormCloseClick (s : State) : outcome :=
  logDiameterChange s >>= state_set states.default.

Definition onUndoClick (s : State) : outcome :=
  (match pop (changes s) with
   | Some (rest, change) =>
       let s1 := set_changesUndone (changesUndone s ++ [change])
                   (set_changes rest s) in
       match change with
       | CircleAdded c => removeCircle c s1
       | DiameterChange c oldDiameter _ => Ok (undoDiameterChange c oldDiameter s1)
       end
   | None => Ok s
   end) >>= λ s2,
  let s3 := if decide (changes s2 = []) then disable_undo s2 else s2 in
  Ok (enable_redo s3).

Definition onRedoClick (s : State) : outcome :=
  (match pop (changesUndone s) with
   | Some (rest, change) =>
       let s1 := set_changes (changes s ++ [change])
                   (set_changesUndone rest s) in
       match change with
       | CircleAdded c => Ok (addCircle c s1)
       | DiameterChange c _ newDiameter => Ok (redoDiameterChange c newDiameter s1)
       end
   | None => Ok s
   end) >>= λ s2,
  let s3 := if decide (changesUndone s2 = []) then disable_redo s2 else s2 in
  Ok (enable_undo s3).

(** ** Events *)

Inductive Event :=
| SvgClick (x y : Qc)
| CircleClick (c : handle)
| CircleRightClick (c : handle)
| AdjustDiameterClick
| MenuCloseClick
| DiameterInput (v : Qc)
| FormCloseClick
| UndoClick
| RedoClick.

Definition dispatch (ev : Event) : State -> outcome :=
  match ev with
  | SvgClick x y => onSvgClick x y
  | CircleClick _ => onCircleClick
  | CircleRightClick c => onCircleRightClick c
  | AdjustDiameterClick => onAdjustDiameterClick
  | MenuCloseClick => onMenuCloseClick
  | DiameterInput v => onDiameterInput v
  | FormCloseClick => onFormCloseClick
  | UndoClick => onUndoClick
  | RedoClick => onRedoClick
  end.

(** ** The page around the script *)

(** Modelled from the spec: the page as loaded.  The markup is not among the
    sources; the spec has the UI start in [default] with nothing selected,
    both logs empty, the menu and the form hidden, and the undo and redo
    controls disabled while their stack is empty. *)
Definition initial : State :=
  mkState None [] [] states.default [] [] false true true true true None None.

(** Modelled from the spec: the events the page can deliver in a state.  The
    wiring of the listeners is in the markup, which is not among the
    sources; the spec has a disabled control receive no click, a disabled
    surface receive no pointer event, and the menu and the form receive
    events only while shown.  A circle receives a right click through the
    [contextmenu] listener [addCircle] registers, while it is on the
    surface. *)
Definition enabled (s : State) (ev : Event) : bool :=
  match ev with
  | SvgClick _ _ => negb (svg_disabled s)
  | CircleClick c =>
      negb (svg_disabled s) && bool_decide (c ∈ svg_children s)
      && from_option on_click false (heap s !! c)
  | CircleRightClick c =>
      negb (svg_disabled s) && bool_decide (c ∈ svg_children s)
      && from_option on_contextmenu false (heap s !! c)
  | AdjustDiameterClick | MenuCloseClick => negb (menu_hidden s)
  | DiameterInput _ | FormCloseClick => negb (form_hidden s)
  | UndoClick => negb (undo_disabled s)
  | RedoClick => negb (redo_disabled s)
  end.

(** Handlers run one after the other, whatever the page would allow. *)
Fixpoint run (evs : list Event) (s : State) : outcome :=
  match evs with
  | [] => Ok s
  | ev :: evs' => dispatch ev s >>= run evs'
  end.

(** One event delivered by the page and handled to the end. *)
Definition step (s : State) (ev : Event) (s' : State) : Prop :=
  enabled s ev = true ∧ dispatch ev s = Ok s'.

Inductive trace : State -> list Event -> State -> Prop :=
| trace_nil s : trace s [] s
| trace_cons s ev s1 evs s2 :
    step s ev s1 -> trace s1 evs s2 -> trace s (ev :: evs) s2.

Definition reachable (s : State) : Prop := ∃ evs, trace initial evs s.

(** Executable form of [trace]. *)
Fixpoint play (evs : list Event) (s : State) : option State :=
  match evs with
  | [] => Some s
  | ev :: evs' =>
      if enabled s ev
      then match dispatch ev s with
           | Ok s1 => play evs' s1
           | Throw _ _ => None
           end
      else None
  end.

(** ** What the change log determines *)

(** The circles added by the records of a log, oldest first. *)
Fixpoint added (l : list Change) : list handle :=
  match l with
  | [] => []
  | CircleAdded c :: l' => c :: added l'
  | DiameterChange _ _ _ :: l' => added l'
  end.

(** The radius attribute of circle [h] once the records of a log have been
    applied in order to a circle created with [DEFAULT_DIAMETER]. *)
Definition replay_r (h : handle) (rv : Qc) (change : Change) : Qc :=
  match change with
  | CircleAdded _ => rv
  | DiameterChange c _ newDiameter =>
      if decide (c = h) then (newDiameter / num 2)%Qc else rv
  end.

Definition radius_after (l : list Change) (h : handle) : Qc :=
  foldl (replay_r h) DEFAULT_DIAMETER l.

Arguments radius_after : simpl never.

(** A log that can have been written by the script over a heap of [n]
    elements: a circle is added once, and a diameter change is about a
    circle added before it and starts from the diameter the records before
    it leave. *)
Inductive log_ok (n : nat) : list Change -> Prop :=
| log_ok_nil : log_ok n []
| log_ok_added l c :
    log_ok n l -> c < n -> c ∉ added l -> log_ok n (l ++ [CircleAdded c])
| log_ok_diameter l c o d :
    log_ok n l -> c ∈ added l -> o = (radius_after l c * num 2)%Qc ->
    log_ok n (l ++ [DiameterChange c o d]).

(** The applied changes followed by the undone ones, in the order they were
    first recorded. *)
Definition timeline (s : State) : list Change :=
  changes s ++ reverse (changesUndone s).

Definition mirrors (s : State) : Prop :=
  undo_disabled s = bool_decide (changes s = [])
  ∧ redo_disabled s = bool_decide (changesUndone s = []).

Definition selection_ok (s : State) : Prop :=
  ∃ sel, selected s = Some sel
         ∧ circle sel ∈ svg_children s
         ∧ diameter sel = (radius_after (changes s) (circle sel) * num 2)%Qc.

Definition locked (s : State) : Prop :=
  svg_disabled s = true ∧ undo_disabled s = true ∧ redo_disabled s = true.

Definition ui_ok (s : State) : Prop :=
  (value s = states.default ∧ selected s = None
   ∧ menu_hidden s = true ∧ form_hidden s = true
   ∧ svg_disabled s = false ∧ mirrors s)
  ∨ (value s = states.menuOpen ∧ selection_ok s
     ∧ menu_hidden s = false ∧ form_hidden s = true ∧ locked s)
  ∨ (value s = states.formOpen ∧ selection_ok s
     ∧ menu_hidden s = true ∧ form_hidden s = false ∧ locked s).

(** The circle whose radius the form is changing. *)
Definition editing (s : State) (h : handle) : Prop :=
  value s = states.formOpen ∧ circle <$> selected s = Some h.

(** The invariant of the reachable states. *)
Record Inv (s : State) : Prop := mkInv {
  inv_children : svg_children s = added (changes s);
  inv_log : log_ok (length (heap s)) (timeline s);
  inv_listen : ∀ h c, heap s !! h = Some c ->
      on_click c = bool_decide (h ∈ svg_children s)
      ∧ on_contextmenu c = bool_decide (h ∈ svg_children s);
  inv_class : ∀ h c, heap s !! h = Some c ->
      class_selected c = bool_decide (circle <$> selected s = Some h);
  inv_radius : ∀ h c, heap s !! h = Some c -> ¬ editing s h ->
      attr_r c = radius_after (changes s) h;
  inv_ui : ui_ok s;
}.

(** ** Notions the statements use *)

(** The state a sequence of handler invocations leaves from the page as
    loaded. *)
Definition state_after (evs : list Event) : State := final (run evs initial).

(** A user-initiated edit: a click that places a circle, or closing the
    form while the diameter of the selected circle ([r * 2], as
    [logDiameterChange] reads it) differs from the selection snapshot. *)
Definition is_edit (s : State) (ev : Event) : bool :=
  match ev with
  | SvgClick _ _ => true
  | FormCloseClick =>
      match selected s with
      | Some sel =>
          match getAttribute_r (circle sel) s with
          | Some rv => bool_decide ((rv * num 2)%Qc ≠ diameter sel)
          | None => false
          end
      | None => false
      end
  | _ => false
  end.

Fixpoint count_edits (s : State) (evs : list Event) : nat :=
  match evs with
  | [] => 0
  | ev :: evs' =>
      (if is_edit s ev then 1 else 0) + count_edits (final (dispatch ev s)) evs'
  end.

(** The events that end a record, an undo or a redo operation. *)
Definition log_operation (ev : Event) : bool :=
  match ev with
  | SvgClick _ _ | FormCloseClick | UndoClick | RedoClick => true
  | _ => false
  end.

Definition undo_or_redo (ev : Event) : bool :=
  match ev with
  | UndoClick | RedoClick => true
  | _ => false
  end.

(** The attributes of a circle other than [r]. *)
Definition same_fixed_attrs (c c' : Circle) : Prop :=
  attr_cx c' = attr_cx c ∧ attr_cy c' = attr_cy c
  ∧ attr_fill c' = attr_fill c ∧ attr_stroke c' = attr_stroke c.

(** Every element of the first heap is in the second, with the same
    attributes other than [r]. *)
Definition heap_frame (l l' : list Circle) : Prop :=
  ∀ h c, l !! h = Some c -> ∃ c', l' !! h = Some c' ∧ same_fixed_attrs c c'.

(** The condition under which [removeChild] in [onUndoClick] finds its
    node: a circle whose addition is on top of the undo stack is on the
    surface. *)
Definition top_added_on_surface (s : State) : Prop :=
  ∀ l c, changes s = l ++ [CircleAdded c] -> c ∈ svg_children s.

(** States the examples start from: one circle placed and its form open
    with the slider moved to 30; two circles placed and the menu open on
    the first. *)
Definition form_open_example : State :=
  state_after [SvgClick (num 10) (num 10); CircleRightClick 0;
               AdjustDiameterClick; DiameterInput (num 30)].

Definition menu_open_example : State :=
  state_after [SvgClick (num 10) (num 10); SvgClick (num 50) (num 50);
               CircleRightClick 0].

Definition one_circle_example : State :=
  state_after [SvgClick (num 10) (num 10)].

Definition resized_example : State :=
  state_after [SvgClick (num 10) (num 10); CircleRightClick 0;
               AdjustDiameterClick; DiameterInput (num 30); FormCloseClick].

Definition undone_example : State :=
  state_after [SvgClick (num 10) (num 10); UndoClick].

(** The diameter of a circle as the script reads it:
    [circle.getAttribute("r") * 2]. *)
Definition getDiameter (h : handle) (s : State) : option Qc :=
  (λ rv, (rv * num 2)%Qc) <$> getAttribute_r h s.

(** ** Notions the further properties use *)

(** A log without a diameter change from a diameter to itself. *)
Definition no_noop_change (l : list Change) : Prop :=
  ∀ c o d, DiameterChange c o d ∈ l -> o ≠ d.

(** Opening the form on a circle, moving the slider through the values
    [vs] and closing the form. *)
Definition edit_flow (c : handle) (vs : list Qc) : list Event :=
  [CircleRightClick c; AdjustDiameterClick]
  ++ (DiameterInput <$> vs) ++ [FormCloseClick].

(** The value the slider shows when the form is closed: the last value it
    was moved to, or the value [loadForm] gave it. *)
Definition slider_value (d0 : Qc) (vs : list Qc) : Qc :=
  default d0 (last vs).

(** A state with nothing selected, and a state whose top record adds a
    circle that is not on the surface (no sequence of events the page
    delivers leads to it). *)
Definition nothing_selected_example : State :=
  state_after [SvgClick (num 10) (num 10)].

Definition detached_top_example : State :=
  set_svg_children [] (state_after [SvgClick (num 10) (num 10)]).

(** ** Arithmetic and lists *)

Lemma num2_neq0 : num 2 ≠ Q2Qc 0.
Proof. intros H. discriminate H. Qed.

Lemma half_double (x : Qc) : (x * num 2 / num 2)%Qc = x.
Proof. field. apply num2_neq0. Qed.

Lemma double_half (x : Qc) : (x / num 2 * num 2)%Qc = x.
Proof. field. apply num2_neq0. Qed.

Lemma double_inj (x y : Qc) : (x * num 2)%Qc = (y * num 2)%Qc -> x = y.
Proof.
  intros H. rewrite <- (half_double x), <- (half_double y). by rewrite H.
Qed.

Lemma pop_nil {A} : pop (@nil A) = None.
Proof. reflexivity. Qed.

Lemma pop_snoc {A} (l : list A) (x : A) : pop (l ++ [x]) = Some (l, x).
Proof. unfold pop. by rewrite reverse_snoc, reverse_involutive. Qed.

Lemma snoc_cases {A} (l : list A) : l = [] ∨ ∃ l' x, l = l' ++ [x].
Proof. induction l using rev_ind; eauto. Qed.

Lemma added_app l1 l2 : added (l1 ++ l2) = added l1 ++ added l2.
Proof.
  induction l1 as [|[c|c o d] l1 IH]; simpl; [done | by rewrite IH | done].
Qed.

Lemma radius_after_snoc l change h :
  radius_after (l ++ [change]) h = replay_r h (radius_after l h) change.
Proof. unfold radius_after. by rewrite foldl_app. Qed.

Lemma filter_ne_absent (c : handle) (l : list handle) :
  c ∉ l -> filter (λ h, h ≠ c) l = l.
Proof.
  induction l as [|a l IH]; [done|].
  intros Hc. rewrite filter_cons_True.
  - f_equal. apply IH. intros ?. apply Hc. by right.
  - intros ->. apply Hc. by left.
Qed.

Lemma filter_ne_snoc (c : handle) (l : list handle) :
  c ∉ l -> filter (λ h, h ≠ c) (l ++ [c]) = l.
Proof.
  intros Hc. rewrite filter_app, filter_ne_absent by done.
  rewrite filter_cons_False, filter_nil by (intros ?; done).
  apply app_nil_r.
Qed.

(** ** Well-formed logs *)

Lemma log_ok_snoc_inv n l change :
  log_ok n (l ++ [change]) ->
  log_ok n l
  ∧ match change with
    | CircleAdded c => c < n ∧ c ∉ added l
    | DiameterChange c o _ =>
        c ∈ added l ∧ o = (radius_after l c * num 2)%Qc
    end.
Proof.
  intros H. inversion H as [E | l0 c Hl Hc Hn E | l0 c o d Hl Hc Ho E].
  - by destruct l.
  - apply app_inj_tail in E as [-> <-]. auto.
  - apply app_inj_tail in E as [-> <-]. auto.
Qed.

Lemma log_ok_app_l n l1 l2 : log_ok n (l1 ++ l2) -> log_ok n l1.
Proof.
  induction l2 as [|x l2 IH] using rev_ind.
  - by rewrite app_nil_r.
  - rewrite app_assoc. intros H. apply IH. by apply log_ok_snoc_inv in H as [H _].
Qed.

Lemma log_ok_mono (n m : nat) l : n ≤ m -> log_ok n l -> log_ok m l.
Proof.
  intros Hnm H. induction H.
  - constructor.
  - constructor; [done | lia | done].
  - by constructor.
Qed.

Lemma log_ok_added_lt n l c : log_ok n l -> c ∈ added l -> c < n.
Proof.
  induction 1 as [|l c' Hl IH Hc Hn|l c' o d Hl IH Hc Ho];
    rewrite ?added_app; simpl.
  - by intros ?%elem_of_nil.
  - rewrite elem_of_app, list_elem_of_singleton. intros [?| ->]; auto.
  - rewrite app_nil_r. auto.
Qed.

Lemma log_ok_fresh_radius n l c :
  log_ok n l -> c ∉ added l -> radius_after l c = DEFAULT_DIAMETER.
Proof.
  induction 1 as [|l c' Hl IH Hc Hn|l c' o d Hl IH Hc Ho];
    rewrite ?added_app, ?radius_after_snoc; simpl.
  - done.
  - rewrite elem_of_app. auto.
  - rewrite app_nil_r. intros Hfresh. case_decide; [by subst | auto].
Qed.

(** The top record of either stack, seen in the timeline. *)
Lemma timeline_top_changes n l change u :
  log_ok n ((l ++ [change]) ++ reverse u) ->
  log_ok n l
  ∧ match change with
    | CircleAdded c => c < n ∧ c ∉ added l
    | DiameterChange c o _ =>
        c ∈ added l ∧ o = (radius_after l c * num 2)%Qc
    end.
Proof. intros H%log_ok_app_l. by apply log_ok_snoc_inv. Qed.

Lemma timeline_top_undone n l change u :
  log_ok n (l ++ reverse (u ++ [change])) ->
  log_ok n l
  ∧ match change with
    | CircleAdded c => c < n ∧ c ∉ added l
    | DiameterChange c o _ =>
        c ∈ added l ∧ o = (radius_after l c * num 2)%Qc
    end.
Proof.
  rewrite reverse_snoc.
  replace (l ++ change :: reverse u) with ((l ++ [change]) ++ reverse u)
    by (by rewrite <- app_assoc).
  apply timeline_top_changes.
Qed.

Lemma timeline_shift (l u : list Change) change :
  (l ++ [change]) ++ reverse u = l ++ reverse (u ++ [change]).
Proof. by rewrite reverse_snoc, <- app_assoc. Qed.

(** ** The UI state, read off the controls *)

Lemma ui_default_of_svg s :
  ui_ok s -> svg_disabled s = false ->
  value s = states.default ∧ selected s = None ∧ menu_hidden s = true
  ∧ form_hidden s = true ∧ mirrors s.
Proof.
  intros [(?&?&?&?&?&?)|[(?&?&?&?&Hl&?)|(?&?&?&?&Hl&?)]] Hsd;
    [done | congruence | congruence].
Qed.

Lemma ui_default_of_undo s :
  ui_ok s -> undo_disabled s = false ->
  value s = states.default ∧ selected s = None ∧ menu_hidden s = true
  ∧ form_hidden s = true ∧ svg_disabled s = false ∧ mirrors s.
Proof.
  intros [(?&?&?&?&?&?)|[(?&?&?&?&?&Hl&?)|(?&?&?&?&?&Hl&?)]] Hsd;
    [done | congruence | congruence].
Qed.

Lemma ui_default_of_redo s :
  ui_ok s -> redo_disabled s = false ->
  value s = states.default ∧ selected s = None ∧ menu_hidden s = true
  ∧ form_hidden s = true ∧ svg_disabled s = false ∧ mirrors s.
Proof.
  intros [(?&?&?&?&?&?)|[(?&?&?&?&?&?&Hl)|(?&?&?&?&?&?&Hl)]] Hsd;
    [done | congruence | congruence].
Qed.

Lemma ui_menu_of_shown s :
  ui_ok s -> menu_hidden s = false ->
  value s = states.menuOpen ∧ selection_ok s ∧ form_hidden s = true ∧ locked s.
Proof.
  intros [(?&?&?&?&?&?)|[(?&?&?&?&?)|(?&?&?&?&?)]] Hsd;
    [congruence | done | congruence].
Qed.

Lemma ui_form_of_shown s :
  ui_ok s -> form_hidden s = false ->
  value s = states.formOpen ∧ selection_ok s ∧ menu_hidden s = true ∧ locked s.
Proof.
  intros [(?&?&?&?&?&?)|[(?&?&?&?&?)|(?&?&?&?&?)]] Hsd;
    [congruence | congruence | done].
Qed.

(** ** The invariant is kept by every handler the page can invoke *)

Lemma alter_snoc_last {A} (f : A -> A) (l : list A) (x : A) :
  alter f (length l) (l ++ [x]) = l ++ [f x].
Proof.
  rewrite <- (Nat.add_0_r (length l)) at 1. by rewrite alter_app_r.
Qed.

Lemma added_lt_heap s h :
  Inv s -> h ∈ added (changes s) -> h < length (heap s).
Proof.
  intros HI Hh. eapply log_ok_added_lt.
  - eapply log_ok_app_l, (inv_log _ HI).
  - done.
Qed.

Lemma bool_decide_false_eq (P : Prop) `{Decision P} : ¬ P -> false = bool_decide P.
Proof. intros. symmetry. by apply bool_decide_eq_false. Qed.

Lemma bool_decide_true_eq (P : Prop) `{Decision P} : P -> true = bool_decide P.
Proof. intros. symmetry. by apply bool_decide_eq_true. Qed.

Lemma inv_onSvgClick s x y :
  Inv s -> enabled s (SvgClick x y) = true ->
  ∃ s', onSvgClick x y s = Ok s' ∧ Inv s'.
Proof.
  intros HI He. eexists. split; [reflexivity|].
  apply negb_true_iff in He.
  destruct (ui_default_of_svg s (inv_ui _ HI) He) as (Hv & Hsel & Hm & Hf & Hmir).
  assert (Hfresh : length (heap s) ∉ added (changes s)).
  { intros H%(added_lt_heap s); [lia | done]. }
  destruct HI as [Hkids Hlog Hlis Hcls Hrad _].
  assert (Hfil : filter (λ h, h ≠ length (heap s)) (svg_children s)
                 = svg_children s).
  { apply filter_ne_absent. by rewrite Hkids. }
  constructor; cbn; rewrite ?Hfil, ?alter_snoc_last.
  - by rewrite Hkids, added_app.
  - unfold timeline; cbn. rewrite length_app, app_nil_r. cbn.
    apply log_ok_added; [|lia|done].
    eapply log_ok_mono; [|eapply log_ok_app_l, Hlog]. lia.
  - intros h c [[Hh Hl]|[-> <-]]%lookup_snoc_Some.
    + destruct (Hlis h c Hl) as [-> ->].
      assert (h ∈ svg_children s ↔ h ∈ svg_children s ++ [length (heap s)]).
      { rewrite elem_of_app, list_elem_of_singleton. split; [auto|]. intros [?|?]; [done|lia]. }
      split; by apply bool_decide_ext.
    + cbn. split; apply bool_decide_true_eq; rewrite elem_of_app, list_elem_of_singleton; auto.
  - intros h c [[Hh Hl]|[-> <-]]%lookup_snoc_Some.
    + by apply Hcls.
    + cbn. rewrite Hsel. by apply bool_decide_false_eq.
  - intros h c Hl _. rewrite radius_after_snoc. cbn.
    apply lookup_snoc_Some in Hl as [[Hh Hl]|[-> <-]].
    + apply Hrad; [done|]. unfold editing. rewrite Hv. intros [? _]. done.
    + cbn. symmetry. eapply log_ok_fresh_radius; [eapply log_ok_app_l, Hlog | done].
  - left. cbn. unfold mirrors. cbn. repeat split; try done.
    apply bool_decide_false_eq. intros H. by destruct (changes s).
Qed.

Lemma lookup_alter_Some {A} (f : A -> A) (l : list A) (i j : nat) (x : A) :
  alter f i l !! j = Some x ->
  ∃ y, l !! j = Some y ∧ ((i = j ∧ x = f y) ∨ (i ≠ j ∧ x = y)).
Proof.
  rewrite list_lookup_alter. case_decide as Hij.
  - subst. destruct (l !! j) as [y|]; [|done]. intros [= <-]. eauto.
  - eauto.
Qed.

Lemma kid_allocated s h :
  Inv s -> h ∈ svg_children s -> ∃ c, heap s !! h = Some c.
Proof.
  intros HI Hh. apply lookup_lt_is_Some_2, added_lt_heap; [done|].
  by rewrite <- (inv_children _ HI).
Qed.

Lemma inv_onCircleRightClick s c :
  Inv s -> enabled s (CircleRightClick c) = true ->
  ∃ s', onCircleRightClick c s = Ok s' ∧ Inv s'.
Proof.
  intros HI He. cbn in He.
  apply andb_true_iff in He as [[Hsd Hc]%andb_true_iff _].
  apply negb_true_iff in Hsd. apply bool_decide_eq_true in Hc.
  destruct (ui_default_of_svg s (inv_ui _ HI) Hsd) as (Hv & Hsel & Hm & Hf & Hmir).
  destruct (kid_allocated s c HI Hc) as [e He].
  destruct HI as [Hkids Hlog Hlis Hcls Hrad _].
  unfold onCircleRightClick, select, getAttribute_r. cbn.
  rewrite list_lookup_alter_eq, He. cbn.
  eexists. split; [reflexivity|].
  constructor; cbn.
  - done.
  - unfold timeline. cbn. by rewrite length_alter.
  - intros h x (y & Hy & [[-> ->]|[_ ->]])%lookup_alter_Some; cbn; by apply Hlis.
  - intros h x (y & Hy & [[-> ->]|[Hne ->]])%lookup_alter_Some; cbn.
    + by apply bool_decide_true_eq.
    + rewrite (Hcls h y Hy), Hsel. cbn.
      rewrite <- bool_decide_false_eq by done.
      apply bool_decide_false_eq. congruence.
  - intros h x (y & Hy & [[-> ->]|[Hne ->]])%lookup_alter_Some _; cbn;
      apply Hrad; try done; unfold editing; rewrite Hv; by intros [? _].
  - right. left. cbn. repeat split; try done.
    exists (mkSelection c (attr_r e * num 2)%Qc). cbn. repeat split; try done.
    f_equal. apply Hrad; [done|]. unfold editing; rewrite Hv; by intros [? _].
Qed.

Lemma inv_onAdjustDiameterClick s :
  Inv s -> enabled s AdjustDiameterClick = true ->
  ∃ s', onAdjustDiameterClick s = Ok s' ∧ Inv s'.
Proof.
  intros HI He. apply negb_true_iff in He.
  destruct (ui_menu_of_shown s (inv_ui _ HI) He)
    as (Hv & (sel & Hsel & Hc & Hd) & Hf & Hsd & Hud & Hrd).
  destruct (kid_allocated s _ HI Hc) as [e Hl].
  destruct HI as [Hkids Hlog Hlis Hcls Hrad _].
  unfold onAdjustDiameterClick, loadForm. rewrite Hsel, Hl. cbn.
  eexists. split; [reflexivity|].
  constructor; cbn; try done.
  - intros h x Hx Hed. apply Hrad; [done|].
    unfold editing. rewrite Hv. by intros [? _].
  - right. right. cbn. repeat split; try done. by exists sel.
Qed.

Lemma inv_onDiameterInput s v :
  Inv s -> enabled s (DiameterInput v) = true ->
  ∃ s', onDiameterInput v s = Ok s' ∧ Inv s'.
Proof.
  intros HI He. apply negb_true_iff in He.
  destruct (ui_form_of_shown s (inv_ui _ HI) He)
    as (Hv & (sel & Hsel & Hc & Hd) & Hf & Hsd & Hud & Hrd).
  destruct HI as [Hkids Hlog Hlis Hcls Hrad _].
  unfold onDiameterInput. rewrite Hsel.
  eexists. split; [reflexivity|].
  constructor; cbn; try done.
  - unfold timeline. cbn. by rewrite length_alter.
  - intros h x (y & Hy & [[<- ->]|[_ ->]])%lookup_alter_Some; cbn; by apply Hlis.
  - intros h x (y & Hy & [[<- ->]|[_ ->]])%lookup_alter_Some; cbn; by apply Hcls.
  - intros h x (y & Hy & [[<- ->]|[Hne ->]])%lookup_alter_Some Hed.
    + exfalso. apply Hed. split; [done|]. cbn. by rewrite Hsel.
    + apply Hrad; [done|]. intros [_ Hs]. apply Hed. by split.
  - right. right. cbn. repeat split; try done. by exists sel.
Qed.

(** Entering [default] from a state with a selection: what
    [onMenuCloseClick] and [onFormCloseClick] share. *)
Lemma inv_state_set_default s sel :
  svg_children s = added (changes s) ->
  log_ok (length (heap s)) (timeline s) ->
  (∀ h c, heap s !! h = Some c ->
     on_click c = bool_decide (h ∈ svg_children s)
     ∧ on_contextmenu c = bool_decide (h ∈ svg_children s)) ->
  (∀ h c, heap s !! h = Some c ->
     class_selected c = bool_decide (circle <$> selected s = Some h)) ->
  (∀ h c, heap s !! h = Some c -> attr_r c = radius_after (changes s) h) ->
  selected s = Some sel ->
  undo_disabled s = true ∨ changes s ≠ [] ->
  redo_disabled s = true ∨ changesUndone s ≠ [] ->
  ∃ s', state_set states.default s = Ok s' ∧ Inv s'
        ∧ changes s' = changes s ∧ changesUndone s' = changesUndone s.
Proof.
  intros Hkids Hlog Hlis Hcls Hrad Hsel Hud Hrd.
  unfold state_set, onStateChange. cbn.
  destruct (decide (changes s ≠ [])) as [Hch|Hch];
    destruct (decide (changesUndone _ ≠ [])) as [Hcu|Hcu]; cbn in Hcu |- *.
  all: unfold deselect; cbn; rewrite Hsel; cbn.
  all: eexists; split; [reflexivity|]; split; [|done].
  all: constructor; cbn; try done.
  all: try (unfold timeline; cbn; by rewrite length_alter).
  all: try (intros h x (y & Hy & [[<- ->]|[_ ->]])%lookup_alter_Some; cbn;
            by apply Hlis).
  all: try (intros h x (y & Hy & [[<- ->]|[Hne ->]])%lookup_alter_Some; cbn;
            [done | rewrite (Hcls h y Hy), Hsel; cbn;
                    apply bool_decide_eq_false; congruence]).
  all: try (intros h x (y & Hy & [[<- ->]|[_ ->]])%lookup_alter_Some _; cbn;
            by apply Hrad).
  all: left; unfold mirrors; cbn; repeat split; try done.
  all: try (by apply bool_decide_false_eq).
  all: repeat match goal with H : ¬ (_ ≠ _) |- _ => apply dec_stable in H end.
  all: try (rewrite Hcu; by destruct Hrd as [->|?]).
  all: rewrite Hch; by destruct Hud as [->|?].
Qed.

Lemma inv_onMenuCloseClick s :
  Inv s -> enabled s MenuCloseClick = true ->
  ∃ s', onMenuCloseClick s = Ok s' ∧ Inv s'.
Proof.
  intros HI He. apply negb_true_iff in He.
  destruct (ui_menu_of_shown s (inv_ui _ HI) He)
    as (Hv & (sel & Hsel & Hc & Hd) & Hf & Hsd & Hud & Hrd).
  destruct HI as [Hkids Hlog Hlis Hcls Hrad _].
  destruct (inv_state_set_default s sel) as (s' & Hs' & HI' & _); auto.
  - intros h c Hl. apply Hrad; [done|]. unfold editing. rewrite Hv. by intros [? _].
  - eauto.
Qed.

Lemma inv_onFormCloseClick s :
  Inv s -> enabled s FormCloseClick = true ->
  ∃ s', onFormCloseClick s = Ok s' ∧ Inv s'.
Proof.
  intros HI He. apply negb_true_iff in He.
  destruct (ui_form_of_shown s (inv_ui _ HI) He)
    as (Hv & (sel & Hsel & Hc & Hd) & Hf & Hsd & Hud & Hrd).
  destruct (kid_allocated s _ HI Hc) as [e Hl].
  destruct HI as [Hkids Hlog Hlis Hcls Hrad _].
  assert (Hothers : ∀ h c, heap s !! h = Some c -> h ≠ circle sel ->
                           attr_r c = radius_after (changes s) h).
  { intros h c Hh Hne. apply Hrad; [done|]. unfold editing. rewrite Hsel.
    cbn. intros [_ [=]]. done. }
  unfold onFormCloseClick, logDiameterChange, getAttribute_r.
  rewrite Hsel, Hl. cbn.
  destruct (decide ((attr_r e * num 2)%Qc ≠ diameter sel)) as [Hne|Heq]; cbn.
  - destruct (inv_state_set_default
                (resetChangesUndone
                   (logChange (DiameterChange (circle sel) (diameter sel)
                                 (attr_r e * num 2)%Qc) s)) sel)
      as (s' & Hs' & HI' & _); cbn; auto.
    + by rewrite added_app, app_nil_r.
    + unfold timeline. cbn. rewrite app_nil_r.
      apply log_ok_diameter; [by eapply log_ok_app_l | by rewrite <- Hkids | done].
    + intros h c Hh. rewrite radius_after_snoc. cbn. case_decide as Hc'.
      * subst h. rewrite half_double. congruence.
      * by apply Hothers.
    + right. intros H. by destruct (changes s).
    + eauto.
  - apply dec_stable in Heq.
    destruct (inv_state_set_default s sel) as (s' & Hs' & HI' & _); auto.
    + intros h c Hh. destruct (decide (h = circle sel)) as [->|Hne].
      * apply double_inj. rewrite <- Hd, <- Heq. congruence.
      * by apply Hothers.
    + eauto.
Qed.

Lemma inv_onCircleClick s :
  Inv s -> ∃ s', onCircleClick s = Ok s' ∧ Inv s'.
Proof. eauto. Qed.


Lemma ui_default_of_value s :
  ui_ok s -> value s = states.default ->
  selected s = None ∧ menu_hidden s = true ∧ form_hidden s = true
  ∧ svg_disabled s = false ∧ mirrors s.
Proof.
  intros [(?&?&?&?&?&?)|[(Hv&?)|(Hv&?)]] Hd; [done | |]; by rewrite Hd in Hv.
Qed.

Lemma snoc_neq_nil {A} (l : list A) (x : A) : l ++ [x] ≠ [].
Proof. by destruct l. Qed.

(** Undo in the [default] state, with a record to undo. *)
Lemma inv_undo s l x :
  Inv s -> value s = states.default -> changes s = l ++ [x] ->
  ∃ s', onUndoClick s = Ok s' ∧ Inv s'
        ∧ changes s' = l ∧ changesUndone s' = changesUndone s ++ [x]
        ∧ length (heap s') = length (heap s)
        ∧ value s' = states.default.
Proof.
  intros HI Hv Hch.
  destruct (ui_default_of_value s (inv_ui _ HI) Hv)
    as (Hsel & Hm & Hf & Hsd & Hud & Hrd).
  destruct HI as [Hkids Hlog Hlis Hcls Hrad _].
  unfold timeline in Hlog. rewrite Hch in Hkids, Hlog, Hud.
  rewrite added_app in Hkids.
  rewrite bool_decide_eq_false_2 in Hud by apply snoc_neq_nil.
  assert (Hrad' : ∀ h c, heap s !! h = Some c ->
                         attr_r c = radius_after (l ++ [x]) h).
  { intros h c Hh. rewrite <- Hch. apply Hrad; [done|].
    unfold editing. rewrite Hv. by intros [? _]. }
  pose proof (timeline_top_changes _ _ _ _ Hlog) as [Hl Hx].
  rewrite timeline_shift in Hlog.
  unfold onUndoClick. rewrite Hch, pop_snoc.
  destruct x as [c|c o d]; cbn in Hkids |- *.
  - destruct Hx as [Hlt Hfresh].
    unfold removeCircle. cbn.
    destruct (decide (c ∈ svg_children s)) as [_|Hn]; cbn.
    2:{ exfalso. apply Hn. rewrite Hkids, elem_of_app, list_elem_of_singleton. auto. }
    rewrite Hkids, filter_ne_snoc by done.
    destruct (decide (l = [])) as [Hnil|Hnil]; cbn.
    all: eexists; split; [reflexivity|]; cbn.
    all: split; [|by rewrite length_alter].
    all: constructor; cbn; try done.
    all: try (unfold timeline; cbn; by rewrite length_alter).
    all: try (intros h y (z & Hz & [[-> ->]|[Hne ->]])%lookup_alter_Some; cbn;
              [ split; by apply bool_decide_false_eq
              | destruct (Hlis h z Hz) as [-> ->]; rewrite Hkids;
                split; apply bool_decide_ext;
                rewrite elem_of_app, list_elem_of_singleton; intuition congruence ]).
    all: try (intros h y (z & Hz & [[-> ->]|[Hne ->]])%lookup_alter_Some; cbn;
              by apply Hcls).
    all: try (intros h y (z & Hz & [[-> ->]|[Hne ->]])%lookup_alter_Some _; cbn;
              rewrite (Hrad' _ _ Hz), radius_after_snoc; done).
    all: left; unfold mirrors; cbn; repeat split; try done.
    all: try (apply bool_decide_false_eq; apply snoc_neq_nil).
    all: try (by apply bool_decide_true_eq).
    all: rewrite Hud; by apply bool_decide_false_eq.
  - destruct Hx as [Hin Ho]. rewrite app_nil_r in Hkids.
    destruct (decide (l = [])) as [Hnil|Hnil]; cbn.
    all: eexists; split; [reflexivity|]; cbn.
    all: split; [|by rewrite length_alter].
    all: constructor; cbn; try done.
    all: try (unfold timeline; cbn; by rewrite length_alter).
    all: try (intros h y (z & Hz & [[-> ->]|[Hne ->]])%lookup_alter_Some; cbn;
              by apply Hlis).
    all: try (intros h y (z & Hz & [[-> ->]|[Hne ->]])%lookup_alter_Some; cbn;
              by apply Hcls).
    all: try (intros h y (z & Hz & [[-> ->]|[Hne ->]])%lookup_alter_Some _; cbn;
              [ rewrite Ho; apply half_double
              | rewrite (Hrad' _ _ Hz), radius_after_snoc; cbn;
                by rewrite decide_False ]).
    all: left; unfold mirrors; cbn; repeat split; try done.
    all: try (apply bool_decide_false_eq; apply snoc_neq_nil).
    all: try (by apply bool_decide_true_eq).
    all: rewrite Hud; by apply bool_decide_false_eq.
Qed.

(** Redo in the [default] state, with a record to redo. *)
Lemma inv_redo s u x :
  Inv s -> value s = states.default -> changesUndone s = u ++ [x] ->
  ∃ s', onRedoClick s = Ok s' ∧ Inv s'
        ∧ changes s' = changes s ++ [x] ∧ changesUndone s' = u
        ∧ length (heap s') = length (heap s)
        ∧ value s' = states.default.
Proof.
  intros HI Hv Hcu.
  destruct (ui_default_of_value s (inv_ui _ HI) Hv)
    as (Hsel & Hm & Hf & Hsd & Hud & Hrd).
  destruct HI as [Hkids Hlog Hlis Hcls Hrad _].
  unfold timeline in Hlog. rewrite Hcu in Hlog, Hrd.
  rewrite bool_decide_eq_false_2 in Hrd by apply snoc_neq_nil.
  assert (Hrad' : ∀ h c, heap s !! h = Some c ->
                         attr_r c = radius_after (changes s) h).
  { intros h c Hh. apply Hrad; [done|].
    unfold editing. rewrite Hv. by intros [? _]. }
  pose proof (timeline_top_undone _ _ _ _ Hlog) as [Hl Hx].
  rewrite <- timeline_shift in Hlog.
  unfold onRedoClick. rewrite Hcu, pop_snoc.
  destruct x as [c|c o d]; cbn.
  - destruct Hx as [Hlt Hfresh].
    assert (Hfil : filter (λ h, h ≠ c) (svg_children s) = svg_children s).
    { apply filter_ne_absent. by rewrite Hkids. }
    destruct (decide (u = [])) as [Hnil|Hnil]; cbn.
    all: eexists; split; [reflexivity|]; cbn.
    all: split; [|by rewrite length_alter].
    all: constructor; cbn; rewrite ?Hfil; try done.
    all: try (by rewrite Hkids, added_app).
    all: try (unfold timeline; cbn; by rewrite length_alter).
    all: try (intros h y (z & Hz & [[-> ->]|[Hne ->]])%lookup_alter_Some; cbn;
              [ split; apply bool_decide_true_eq;
                rewrite elem_of_app, list_elem_of_singleton; auto
              | destruct (Hlis h z Hz) as [-> ->];
                split; apply bool_decide_ext;
                rewrite elem_of_app, list_elem_of_singleton; intuition congruence ]).
    all: try (intros h y (z & Hz & [[-> ->]|[Hne ->]])%lookup_alter_Some; cbn;
              by apply Hcls).
    all: try (intros h y (z & Hz & [[-> ->]|[Hne ->]])%lookup_alter_Some _; cbn;
              rewrite (Hrad' _ _ Hz), radius_after_snoc; done).
    all: left; unfold mirrors; cbn; repeat split; try done.
    all: try (apply bool_decide_false_eq; apply snoc_neq_nil).
    all: try (by apply bool_decide_true_eq).
    all: rewrite Hrd; by apply bool_decide_false_eq.
  - destruct Hx as [Hin Ho].
    destruct (decide (u = [])) as [Hnil|Hnil]; cbn.
    all: eexists; split; [reflexivity|]; cbn.
    all: split; [|by rewrite length_alter].
    all: constructor; cbn; try done.
    all: try (by rewrite Hkids, added_app, app_nil_r).
    all: try (unfold timeline; cbn; by rewrite length_alter).
    all: try (intros h y (z & Hz & [[-> ->]|[Hne ->]])%lookup_alter_Some; cbn;
              by apply Hlis).
    all: try (intros h y (z & Hz & [[-> ->]|[Hne ->]])%lookup_alter_Some; cbn;
              by apply Hcls).
    all: try (intros h y (z & Hz & [[-> ->]|[Hne ->]])%lookup_alter_Some _; cbn;
              rewrite radius_after_snoc; cbn;
              [ by rewrite decide_True
              | rewrite decide_False by done; by apply Hrad' ]).
    all: left; unfold mirrors; cbn; repeat split; try done.
    all: try (apply bool_decide_false_eq; apply snoc_neq_nil).
    all: try (by apply bool_decide_true_eq).
    all: rewrite Hrd; by apply bool_decide_false_eq.
Qed.

Lemma enabled_undo_default s :
  Inv s -> enabled s UndoClick = true ->
  value s = states.default ∧ ∃ l x, changes s = l ++ [x].
Proof.
  intros HI He%negb_true_iff.
  destruct (ui_default_of_undo s (inv_ui _ HI) He) as (Hv&_&_&_&_&Hud&_).
  split; [done|]. rewrite He in Hud.
  destruct (snoc_cases (changes s)) as [Hnil|?]; [|done].
  rewrite Hnil in Hud. done.
Qed.

Lemma enabled_redo_default s :
  Inv s -> enabled s RedoClick = true ->
  value s = states.default ∧ ∃ u x, changesUndone s = u ++ [x].
Proof.
  intros HI He%negb_true_iff.
  destruct (ui_default_of_redo s (inv_ui _ HI) He) as (Hv&_&_&_&_&_&Hrd).
  split; [done|]. rewrite He in Hrd.
  destruct (snoc_cases (changesUndone s)) as [Hnil|?]; [|done].
  rewrite Hnil in Hrd. done.
Qed.

Lemma inv_initial : Inv initial.
Proof.
  constructor; cbn; try done.
  - constructor.
  - left. by repeat split.
Qed.

(** Every event the page delivers in a state of the invariant is handled
    without an exception, and the invariant holds again. *)
Lemma inv_step s ev :
  Inv s -> enabled s ev = true -> ∃ s', dispatch ev s = Ok s' ∧ Inv s'.
Proof.
  intros HI He. destruct ev; cbn [dispatch].
  - by apply inv_onSvgClick.
  - by apply inv_onCircleClick.
  - by apply inv_onCircleRightClick.
  - by apply inv_onAdjustDiameterClick.
  - by apply inv_onMenuCloseClick.
  - by apply inv_onDiameterInput.
  - by apply inv_onFormCloseClick.
  - destruct (enabled_undo_default s HI He) as (Hv & l & x & Hch).
    destruct (inv_undo s l x HI Hv Hch) as (s' & ? & ? & _). eauto.
  - destruct (enabled_redo_default s HI He) as (Hv & u & x & Hcu).
    destruct (inv_redo s u x HI Hv Hcu) as (s' & ? & ? & _). eauto.
Qed.

Lemma inv_trace s evs s' : trace s evs s' -> Inv s -> Inv s'.
Proof.
  induction 1 as [|s ev s1 evs s2 [He Hd] _ IH]; [done|].
  intros HI. apply IH.
  destruct (inv_step s ev HI He) as (s1' & Hd' & HI'). congruence.
Qed.

Lemma inv_reachable s : reachable s -> Inv s.
Proof. intros [evs Ht]. eapply inv_trace; [done | apply inv_initial]. Qed.

Lemma play_trace evs s s' : play evs s = Some s' -> trace s evs s'.
Proof.
  revert s. induction evs as [|ev evs IH]; cbn; intros s.
  - intros [= ->]. constructor.
  - destruct (enabled s ev) eqn:He; [|done].
    destruct (dispatch ev s) as [s1|] eqn:Hd; [|done].
    intros H. econstructor; [by split | by apply IH].
Qed.

Lemma trace_app s evs1 s1 evs2 s2 :
  trace s evs1 s1 -> trace s1 evs2 s2 -> trace s (evs1 ++ evs2) s2.
Proof.
  induction 1; cbn; [done|]. intros H2. econstructor; eauto.
Qed.

Lemma reachable_trace s evs s' : reachable s -> trace s evs s' -> reachable s'.
Proof. intros [evs0 H0] H. exists (evs0 ++ evs). by eapply trace_app. Qed.

Lemma reachable_play evs s : play evs initial = Some s -> reachable s.
Proof. intros H. exists evs. by apply play_trace. Qed.

(** ** Recording a change *)

Lemma onSvgClick_log s x y :
  ∃ s', onSvgClick x y s = Ok s'
        ∧ changes s' = changes s ++ [CircleAdded (length (heap s))]
        ∧ changesUndone s' = [].
Proof. eexists. split; [reflexivity|]. done. Qed.

Lemma state_set_default_selected s sel :
  selected s = Some sel ->
  ∃ s', state_set states.default s = Ok s'
        ∧ changes s' = changes s ∧ changesUndone s' = changesUndone s.
Proof.
  intros Hsel. unfold state_set, onStateChange. cbn.
  destruct (decide (changes s ≠ [])); destruct (decide (changesUndone _ ≠ []));
    unfold deselect; cbn; rewrite Hsel; cbn; eauto.
Qed.

Lemma onFormCloseClick_log s sel rv :
  selected s = Some sel ->
  getAttribute_r (circle sel) s = Some rv ->
  ∃ s', onFormCloseClick s = Ok s'
        ∧ ((rv * num 2)%Qc ≠ diameter sel ->
           changes s' = changes s
                        ++ [DiameterChange (circle sel) (diameter sel)
                              (rv * num 2)%Qc]
           ∧ changesUndone s' = [])
        ∧ ((rv * num 2)%Qc = diameter sel ->
           changes s' = changes s ∧ changesUndone s' = changesUndone s).
Proof.
  intros Hsel Hr. unfold onFormCloseClick, logDiameterChange.
  rewrite Hsel, Hr. cbn.
  destruct (decide ((rv * num 2)%Qc ≠ diameter sel)) as [Hne|Heq]; cbn.
  - destruct (state_set_default_selected
                (resetChangesUndone
                   (logChange (DiameterChange (circle sel) (diameter sel)
                                 (rv * num 2)%Qc) s)) sel Hsel)
      as (s' & -> & Hc & Hu).
    exists s'. split; [done|]. split; [|done]. intros _. by rewrite Hc, Hu.
  - destruct (state_set_default_selected s sel Hsel) as (s' & -> & Hc & Hu).
    exists s'. split; [done|]. split; [done|]. by intros _.
Qed.

Lemma form_open_selection s :
  reachable s -> enabled s FormCloseClick = true ->
  ∃ sel rv, selected s = Some sel ∧ getAttribute_r (circle sel) s = Some rv.
Proof.
  intros HI%inv_reachable He%negb_true_iff.
  destruct (ui_form_of_shown s (inv_ui _ HI) He) as (_ & (sel & Hsel & Hc & _) & _).
  destruct (kid_allocated s _ HI Hc) as [e Hl].
  exists sel, (attr_r e). split; [done|]. unfold getAttribute_r. by rewrite Hl.
Qed.

(** C1.  A user-initiated edit (a click that places a circle, or closing the
    form with a diameter that differs from the selection snapshot) returns,
    appends exactly one record to [changes] and leaves [changesUndone]
    empty, in every state; in a reachable state in which the form can be
    closed there is a selection to compare with; and after add A, add B,
    undo, add C the redo stack is empty and the redo control is disabled. *)
Theorem edit_appends_and_clears_redo :
  (∀ s ev, is_edit s ev = true ->
     ∃ s' change, dispatch ev s = Ok s'
                  ∧ changes s' = changes s ++ [change]
                  ∧ changesUndone s' = [])
  ∧ (∀ s, reachable s -> enabled s FormCloseClick = true ->
       ∃ sel rv, selected s = Some sel
                 ∧ getAttribute_r (circle sel) s = Some rv)
  ∧ (∀ xa ya xb yb xc yc,
       ∃ s', play [SvgClick xa ya; SvgClick xb yb; UndoClick; SvgClick xc yc]
               initial = Some s'
             ∧ changesUndone s' = []
             ∧ redo_disabled s' = true
             ∧ enabled s' RedoClick = false).
Proof.
  split; [|split].
  - intros s ev He. destruct ev; try discriminate He; cbn [dispatch].
    + destruct (onSvgClick_log s x y) as (s' & ? & ? & ?). eauto.
    + cbn in He. destruct (selected s) as [sel|] eqn:Hsel; [|done].
      destruct (getAttribute_r (circle sel) s) as [rv|] eqn:Hr; [|done].
      apply bool_decide_eq_true in He.
      destruct (onFormCloseClick_log s sel rv Hsel Hr) as (s' & ? & Hd & _).
      destruct (Hd He). eauto.
  - apply form_open_selection.
  - intros. vm_compute. eexists. split; [reflexivity|]. done.
Qed.

Lemma edit_appends_and_clears_redo_witness :
  ∃ s' change, dispatch (SvgClick (num 10) (num 10)) initial = Ok s'
               ∧ changes s' = changes initial ++ [change]
               ∧ changesUndone s' = [].
Proof.
  apply (proj1 edit_appends_and_clears_redo initial (SvgClick (num 10) (num 10))).
  reflexivity.
Defined.

(** C7.  Closing the form with a circle selected returns; it appends a
    [DiameterChange] record (from the snapshot to the diameter at close
    time) and empties the redo stack when the diameter at close time
    differs from the snapshot, and leaves both stacks as they are when it
    does not: a record is created if and only if the two differ. *)
Theorem form_close_logs_iff_diameter_differs s sel rv :
  selected s = Some sel ->
  getAttribute_r (circle sel) s = Some rv ->
  ∃ s', onFormCloseClick s = Ok s'
        ∧ ((rv * num 2)%Qc ≠ diameter sel ->
           changes s' = changes s
                        ++ [DiameterChange (circle sel) (diameter sel)
                              (rv * num 2)%Qc]
           ∧ changesUndone s' = [])
        ∧ ((rv * num 2)%Qc = diameter sel ->
           changes s' = changes s
           ∧ length (changes s') = length (changes s)
           ∧ changesUndone s' = changesUndone s)
        ∧ (length (changes s') = S (length (changes s))
           ↔ (rv * num 2)%Qc ≠ diameter sel).
Proof.
  intros Hsel Hr.
  destruct (onFormCloseClick_log s sel rv Hsel Hr) as (s' & Hs' & Hne & Heq).
  exists s'. split; [done|]. split; [done|]. split.
  - intros H. destruct (Heq H) as [-> ->]. done.
  - destruct (decide ((rv * num 2)%Qc = diameter sel)) as [H|H].
    + destruct (Heq H) as [-> _]. split; [lia | done].
    + destruct (Hne H) as [-> _]. rewrite length_app. cbn. split; [done | lia].
Qed.

Lemma form_close_logs_iff_diameter_differs_witness :
  selected form_open_example
  = Some (mkSelection 0 (DEFAULT_DIAMETER * num 2)%Qc)
  ∧ getAttribute_r 0 form_open_example = Some (num 30 / num 2)%Qc
  ∧ ∃ s', onFormCloseClick form_open_example = Ok s'
          ∧ length (changes s') = 2.
Proof.
  split; [reflexivity|]. split; [reflexivity|].
  destruct (form_close_logs_iff_diameter_differs form_open_example
              (mkSelection 0 (DEFAULT_DIAMETER * num 2)%Qc)
              (num 30 / num 2)%Qc eq_refl eq_refl)
    as (s' & Hs' & _ & _ & Hiff).
  exists s'. split; [exact Hs'|].
  apply Hiff. cbn. intros H. discriminate H.
Defined.

(** ** Undo and redo, handler by handler *)

Lemma onUndoClick_empty s :
  changes s = [] ->
  ∃ s', onUndoClick s = Ok s'
        ∧ changes s' = [] ∧ changesUndone s' = changesUndone s
        ∧ heap s' = heap s ∧ svg_children s' = svg_children s
        ∧ undo_disabled s' = true ∧ redo_disabled s' = false.
Proof.
  intros Hch. unfold onUndoClick. rewrite Hch. cbn.
  rewrite decide_True by done. cbn. eexists. split; [reflexivity|]. done.
Qed.

Lemma onUndoClick_added s l c :
  changes s = l ++ [CircleAdded c] -> c ∈ svg_children s ->
  ∃ s', onUndoClick s = Ok s'
        ∧ changes s' = l
        ∧ changesUndone s' = changesUndone s ++ [CircleAdded c]
        ∧ svg_children s' = filter (λ h, h ≠ c) (svg_children s)
        ∧ heap s' = alter (with_listeners false) c (heap s)
        ∧ undo_disabled s' = (if decide (l = []) then true else undo_disabled s)
        ∧ redo_disabled s' = false.
Proof.
  intros Hch Hc. unfold onUndoClick. rewrite Hch, pop_snoc.
  unfold removeCircle. cbn. rewrite decide_True by done. cbn.
  destruct (decide (l = [])); eexists; (split; [reflexivity|]); done.
Qed.

Lemma onUndoClick_diameter s l c o d :
  changes s = l ++ [DiameterChange c o d] ->
  ∃ s', onUndoClick s = Ok s'
        ∧ changes s' = l
        ∧ changesUndone s' = changesUndone s ++ [DiameterChange c o d]
        ∧ svg_children s' = svg_children s
        ∧ heap s' = alter (with_r (o / num 2)%Qc) c (heap s)
        ∧ undo_disabled s' = (if decide (l = []) then true else undo_disabled s)
        ∧ redo_disabled s' = false.
Proof.
  intros Hch. unfold onUndoClick. rewrite Hch, pop_snoc. cbn.
  destruct (decide (l = [])); eexists; (split; [reflexivity|]); done.
Qed.

Lemma onRedoClick_empty s :
  changesUndone s = [] ->
  ∃ s', onRedoClick s = Ok s'
        ∧ changes s' = changes s ∧ changesUndone s' = []
        ∧ heap s' = heap s ∧ svg_children s' = svg_children s
        ∧ undo_disabled s' = false ∧ redo_disabled s' = true.
Proof.
  intros Hcu. unfold onRedoClick. rewrite Hcu. cbn.
  rewrite decide_True by done. cbn. eexists. split; [reflexivity|]. done.
Qed.

Lemma onRedoClick_added s u c :
  changesUndone s = u ++ [CircleAdded c] ->
  ∃ s', onRedoClick s = Ok s'
        ∧ changes s' = changes s ++ [CircleAdded c]
        ∧ changesUndone s' = u
        ∧ svg_children s' = filter (λ h, h ≠ c) (svg_children s) ++ [c]
        ∧ heap s' = alter (with_listeners true) c (heap s)
        ∧ undo_disabled s' = false
        ∧ redo_disabled s' = (if decide (u = []) then true else redo_disabled s).
Proof.
  intros Hcu. unfold onRedoClick. rewrite Hcu, pop_snoc. cbn.
  destruct (decide (u = [])); eexists; (split; [reflexivity|]); done.
Qed.

Lemma onRedoClick_diameter s u c o d :
  changesUndone s = u ++ [DiameterChange c o d] ->
  ∃ s', onRedoClick s = Ok s'
        ∧ changes s' = changes s ++ [DiameterChange c o d]
        ∧ changesUndone s' = u
        ∧ svg_children s' = svg_children s
        ∧ heap s' = alter (with_r (d / num 2)%Qc) c (heap s)
        ∧ undo_disabled s' = false
        ∧ redo_disabled s' = (if decide (u = []) then true else redo_disabled s).
Proof.
  intros Hcu. unfold onRedoClick. rewrite Hcu, pop_snoc. cbn.
  destruct (decide (u = [])); eexists; (split; [reflexivity|]); done.
Qed.

Lemma reachable_top_added_on_surface s : reachable s -> top_added_on_surface s.
Proof.
  intros HI%inv_reachable l c Hch.
  rewrite (inv_children _ HI), Hch, added_app, elem_of_app.
  right. by left.
Qed.

Lemma diameter_of_alter_r (hp : list Circle) c (v : Qc) :
  c < length hp ->
  (λ rv, (rv * num 2)%Qc) <$> (attr_r <$> alter (with_r (v / num 2)%Qc) c hp !! c)
  = Some v.
Proof.
  intros [e He]%lookup_lt_is_Some_2.
  rewrite list_lookup_alter_eq, He. cbn. by rewrite double_half.
Qed.

Lemma filter_ne_elem (c h : nat) (l : list nat) :
  h ≠ c -> (h ∈ filter (λ k, k ≠ c) l ↔ h ∈ l).
Proof. rewrite list_elem_of_filter. intuition. Qed.

Lemma filter_ne_not_elem (c : nat) (l : list nat) :
  c ∉ filter (λ k, k ≠ c) l.
Proof. rewrite list_elem_of_filter. intuition. Qed.

Lemma attr_r_alter_listeners (hp : list Circle) b c h :
  attr_r <$> alter (with_listeners b) c hp !! h = attr_r <$> hp !! h.
Proof.
  rewrite list_lookup_alter. case_decide; [subst|done].
  by destruct (hp !! h).
Qed.

Lemma reachable_top_diameter_allocated s l c o d :
  reachable s -> changes s = l ++ [DiameterChange c o d] ->
  c < length (heap s).
Proof.
  intros HI%inv_reachable Hch. pose proof (inv_log _ HI) as Hlog.
  unfold timeline in Hlog. rewrite Hch in Hlog.
  apply timeline_top_changes in Hlog as [Hl [Hin _]].
  by eapply log_ok_added_lt.
Qed.

Lemma reachable_top_undone s u x :
  reachable s -> changesUndone s = u ++ [x] ->
  match x with
  | CircleAdded c => c < length (heap s) ∧ c ∉ svg_children s
  | DiameterChange c _ _ => c < length (heap s)
  end.
Proof.
  intros HI%inv_reachable Hcu. pose proof (inv_log _ HI) as Hlog.
  unfold timeline in Hlog. rewrite Hcu in Hlog.
  apply timeline_top_undone in Hlog as [Hl Hx]. destruct x as [c|c o d].
  - by rewrite (inv_children _ HI).
  - destruct Hx. by eapply log_ok_added_lt.
Qed.

(** C3.  [onUndoClick] with an empty undo stack returns and leaves both
    stacks, the circle elements and the surface as they are.  With a
    [CircleAdded] record on top, for a circle on the surface, it returns
    with the record moved to the top of the redo stack, the circle off the
    surface, the other circles where they were and no radius changed.  With
    a [DiameterChange] record on top it returns with the record moved to the
    top of the redo stack and the diameter of its circle back at
    [oldDiameter], the surface and the other circles as they were.  In a
    reachable state a circle whose addition is on top is on the surface and
    a circle whose diameter change is on top exists. *)
Theorem undo_pops_inverts_pushes s :
  (changes s = [] ->
     ∃ s', onUndoClick s = Ok s'
           ∧ changes s' = changes s ∧ changesUndone s' = changesUndone s
           ∧ heap s' = heap s ∧ svg_children s' = svg_children s)
  ∧ (∀ l c, changes s = l ++ [CircleAdded c] -> c ∈ svg_children s ->
       ∃ s', onUndoClick s = Ok s'
             ∧ changes s' = l
             ∧ changesUndone s' = changesUndone s ++ [CircleAdded c]
             ∧ (c ∉ svg_children s')
             ∧ (∀ h, h ≠ c -> (h ∈ svg_children s' ↔ h ∈ svg_children s))
             ∧ (∀ h, getAttribute_r h s' = getAttribute_r h s))
  ∧ (∀ l c o d, changes s = l ++ [DiameterChange c o d] ->
       c < length (heap s) ->
       ∃ s', onUndoClick s = Ok s'
             ∧ changes s' = l
             ∧ changesUndone s' = changesUndone s ++ [DiameterChange c o d]
             ∧ getDiameter c s' = Some o
             ∧ svg_children s' = svg_children s
             ∧ (∀ h, h ≠ c -> heap s' !! h = heap s !! h))
  ∧ (reachable s ->
       top_added_on_surface s
       ∧ ∀ l c o d, changes s = l ++ [DiameterChange c o d] ->
                    c < length (heap s)).
Proof.
  repeat split.
  - intros Hch. destruct (onUndoClick_empty s Hch) as (s' & ? & ? & ? & ? & ? & _).
    exists s'. rewrite Hch. done.
  - intros l c Hch Hc.
    destruct (onUndoClick_added s l c Hch Hc) as (s' & ? & ? & ? & Hk & Hh & _).
    exists s'. repeat split; try done.
    + rewrite Hk. apply filter_ne_not_elem.
    + rewrite Hk. by apply filter_ne_elem.
    + rewrite Hk. by apply filter_ne_elem.
    + intros h. unfold getAttribute_r. rewrite Hh. apply attr_r_alter_listeners.
  - intros l c o d Hch Hc.
    destruct (onUndoClick_diameter s l c o d Hch) as (s' & ? & ? & ? & ? & Hh & _).
    exists s'. repeat split; try done.
    + unfold getDiameter, getAttribute_r. rewrite Hh. by apply diameter_of_alter_r.
    + intros h Hne. rewrite Hh. by apply list_lookup_alter_ne.
  - by apply reachable_top_added_on_surface.
  - intros l c o d. by apply reachable_top_diameter_allocated.
Qed.

Lemma undo_pops_inverts_pushes_witness :
  changes resized_example
  = [CircleAdded 0]
    ++ [DiameterChange 0 (DEFAULT_DIAMETER * num 2)%Qc
          (num 30 / num 2 * num 2)%Qc]
  ∧ 0 < length (heap resized_example)
  ∧ ∃ s', onUndoClick resized_example = Ok s'
          ∧ getDiameter 0 s' = Some (DEFAULT_DIAMETER * num 2)%Qc.
Proof.
  split; [vm_compute; reflexivity|]. split; [vm_compute; lia|].
  destruct (proj1 (proj2 (proj2 (undo_pops_inverts_pushes resized_example)))
              [CircleAdded 0] 0 (DEFAULT_DIAMETER * num 2)%Qc
              (num 30 / num 2 * num 2)%Qc eq_refl)
    as (s' & Hs' & _ & _ & Hd & _).
  - vm_compute. lia.
  - exists s'. split; [exact Hs' | exact Hd].
Defined.

(** C4.  [onRedoClick] with an empty redo stack returns and leaves both
    stacks, the circle elements and the surface as they are.  With a
    [CircleAdded] record on top it returns with the record moved to the top
    of the undo stack, the circle on the surface, the other circles where
    they were and no radius changed.  With a [DiameterChange] record on top
    it returns with the record moved to the top of the undo stack and the
    diameter of its circle at [newDiameter], the surface and the other
    circles as they were.  In a reachable state the circle of the record on
    top exists, and is off the surface when the record is its addition. *)
Theorem redo_pops_reapplies_pushes s :
  (changesUndone s = [] ->
     ∃ s', onRedoClick s = Ok s'
           ∧ changes s' = changes s ∧ changesUndone s' = changesUndone s
           ∧ heap s' = heap s ∧ svg_children s' = svg_children s)
  ∧ (∀ u c, changesUndone s = u ++ [CircleAdded c] ->
       ∃ s', onRedoClick s = Ok s'
             ∧ changesUndone s' = u
             ∧ changes s' = changes s ++ [CircleAdded c]
             ∧ c ∈ svg_children s'
             ∧ (∀ h, h ≠ c -> (h ∈ svg_children s' ↔ h ∈ svg_children s))
             ∧ (∀ h, getAttribute_r h s' = getAttribute_r h s))
  ∧ (∀ u c o d, changesUndone s = u ++ [DiameterChange c o d] ->
       c < length (heap s) ->
       ∃ s', onRedoClick s = Ok s'
             ∧ changesUndone s' = u
             ∧ changes s' = changes s ++ [DiameterChange c o d]
             ∧ getDiameter c s' = Some d
             ∧ svg_children s' = svg_children s
             ∧ (∀ h, h ≠ c -> heap s' !! h = heap s !! h))
  ∧ (reachable s ->
       ∀ u x, changesUndone s = u ++ [x] ->
              match x with
              | CircleAdded c => c < length (heap s) ∧ c ∉ svg_children s
              | DiameterChange c _ _ => c < length (heap s)
              end).
Proof.
  repeat split.
  - intros Hcu. destruct (onRedoClick_empty s Hcu) as (s' & ? & ? & ? & ? & ? & _).
    exists s'. rewrite Hcu. done.
  - intros u c Hcu.
    destruct (onRedoClick_added s u c Hcu) as (s' & ? & ? & ? & Hk & Hh & _).
    exists s'. repeat split; try done.
    + rewrite Hk, elem_of_app, list_elem_of_singleton. auto.
    + rewrite Hk, elem_of_app, list_elem_of_singleton.
      intros [?%filter_ne_elem|?]; done.
    + rewrite Hk, elem_of_app. intros ?. left. by apply filter_ne_elem.
    + intros h. unfold getAttribute_r. rewrite Hh. apply attr_r_alter_listeners.
  - intros u c o d Hcu Hc.
    destruct (onRedoClick_diameter s u c o d Hcu) as (s' & ? & ? & ? & ? & Hh & _).
    exists s'. repeat split; try done.
    + unfold getDiameter, getAttribute_r. rewrite Hh. by apply diameter_of_alter_r.
    + intros h Hne. rewrite Hh. by apply list_lookup_alter_ne.
  - intros Hr u x. by apply reachable_top_undone.
Qed.

Lemma redo_pops_reapplies_pushes_witness :
  changesUndone undone_example = [] ++ [CircleAdded 0]
  ∧ ∃ s', onRedoClick undone_example = Ok s' ∧ 0 ∈ svg_children s'.
Proof.
  split; [reflexivity|].
  destruct (proj1 (proj2 (redo_pops_reapplies_pushes undone_example))
              [] 0 eq_refl)
    as (s' & Hs' & _ & _ & Hin & _).
  exists s'. split; [exact Hs' | exact Hin].
Defined.

(** C10.  [onUndoClick], whenever it returns, ends with the redo control
    enabled, and it returns unless a [CircleAdded] record on top is for a
    circle that is not on the surface, which no reachable state has;
    [onRedoClick] always returns and ends with the undo control enabled.
    With both stacks empty each handler returns, leaves both stacks empty
    and has enabled the opposite control. *)
Theorem handlers_enable_opposite_control s :
  (top_added_on_surface s ->
     ∃ s', onUndoClick s = Ok s' ∧ redo_disabled s' = false)
  ∧ (∃ s', onRedoClick s = Ok s' ∧ undo_disabled s' = false)
  ∧ (reachable s -> top_added_on_surface s)
  ∧ (changes s = [] -> changesUndone s = [] ->
       ∃ s1 s2, onUndoClick s = Ok s1 ∧ onRedoClick s = Ok s2
                ∧ changes s1 = [] ∧ changesUndone s1 = []
                ∧ redo_disabled s1 = false
                ∧ changes s2 = [] ∧ changesUndone s2 = []
                ∧ undo_disabled s2 = false).
Proof.
  repeat split.
  - intros Htop. destruct (snoc_cases (changes s)) as [Hch|(l & [c|c o d] & Hch)].
    + destruct (onUndoClick_empty s Hch) as (s' & ? & _ & _ & _ & _ & _ & ?). eauto.
    + destruct (onUndoClick_added s l c Hch (Htop l c Hch))
        as (s' & ? & _ & _ & _ & _ & _ & ?). eauto.
    + destruct (onUndoClick_diameter s l c o d Hch)
        as (s' & ? & _ & _ & _ & _ & _ & ?). eauto.
  - destruct (snoc_cases (changesUndone s)) as [Hcu|(u & [c|c o d] & Hcu)].
    + destruct (onRedoClick_empty s Hcu) as (s' & ? & _ & _ & _ & _ & ? & _). eauto.
    + destruct (onRedoClick_added s u c Hcu) as (s' & ? & _ & _ & _ & _ & ? & _). eauto.
    + destruct (onRedoClick_diameter s u c o d Hcu)
        as (s' & ? & _ & _ & _ & _ & ? & _). eauto.
  - apply reachable_top_added_on_surface.
  - intros Hch Hcu.
    destruct (onUndoClick_empty s Hch) as (s1 & ? & ? & Hu1 & _ & _ & _ & ?).
    destruct (onRedoClick_empty s Hcu) as (s2 & ? & Hc2 & ? & _ & _ & ? & _).
    exists s1, s2. rewrite Hu1, Hc2. done.
Qed.

Lemma handlers_enable_opposite_control_witness :
  changes initial = [] ∧ changesUndone initial = []
  ∧ ∃ s1 s2, onUndoClick initial = Ok s1 ∧ onRedoClick initial = Ok s2
             ∧ changes s1 = [] ∧ changesUndone s1 = []
             ∧ redo_disabled s1 = false
             ∧ changes s2 = [] ∧ changesUndone s2 = []
             ∧ undo_disabled s2 = false.
Proof.
  split; [reflexivity|]. split; [reflexivity|].
  apply (proj2 (proj2 (proj2 (handlers_enable_opposite_control initial))));
    reflexivity.
Defined.

(** ** What no handler writes *)

Lemma same_fixed_attrs_refl c : same_fixed_attrs c c.
Proof. by repeat split. Qed.

Lemma heap_frame_refl l : heap_frame l l.
Proof. intros h c Hc. exists c. split; [done | apply same_fixed_attrs_refl]. Qed.

Lemma heap_frame_trans l1 l2 l3 :
  heap_frame l1 l2 -> heap_frame l2 l3 -> heap_frame l1 l3.
Proof.
  intros H12 H23 h c Hc.
  destruct (H12 h c Hc) as (c2 & Hc2 & (?&?&?&?)).
  destruct (H23 h c2 Hc2) as (c3 & Hc3 & (?&?&?&?)).
  exists c3. split; [done|]. repeat split; congruence.
Qed.

Lemma heap_frame_alter (f : Circle -> Circle) i l :
  (∀ c, same_fixed_attrs c (f c)) -> heap_frame l (alter f i l).
Proof.
  intros Hf h c Hc. rewrite list_lookup_alter. case_decide.
  - subst. rewrite Hc. cbn. eauto.
  - exists c. split; [done | apply same_fixed_attrs_refl].
Qed.

Lemma heap_frame_app l k : heap_frame l (l ++ k).
Proof.
  intros h c Hc. exists c. split; [|apply same_fixed_attrs_refl].
  by apply lookup_app_l_Some.
Qed.

Ltac heap_frame :=
  cbn;
  repeat match goal with
    | |- heap_frame ?l ?l => apply heap_frame_refl
    | |- heap_frame ?l (?l ++ _) => apply heap_frame_app
    | |- heap_frame _ (alter _ _ _) =>
        eapply heap_frame_trans;
        [| apply heap_frame_alter; intros ?; by repeat split ]
    end.

Lemma frame_state_set v s : heap_frame (heap s) (heap (final (state_set v s))).
Proof.
  unfold state_set, onStateChange, deselect.
  repeat case_decide; cbn; try apply heap_frame_refl.
  all: destruct (selected _); cbn; heap_frame.
Qed.

Lemma frame_andThen o k l :
  heap_frame l (heap (final o)) ->
  (∀ s, heap_frame (heap s) (heap (final (k s)))) ->
  heap_frame l (heap (final (o >>= k))).
Proof.
  intros Ho Hk. destruct o as [s|e s]; cbn in *; [|done].
  eapply heap_frame_trans; [done | apply Hk].
Qed.

Lemma frame_dispatch ev s : heap_frame (heap s) (heap (final (dispatch ev s))).
Proof.
  destruct ev; cbn [dispatch].
  - cbn. rewrite alter_snoc_last. apply heap_frame_app.
  - apply heap_frame_refl.
  - apply frame_andThen; [|apply frame_state_set].
    unfold select, getAttribute_r. cbn.
    destruct (_ !! _); cbn; heap_frame.
  - apply frame_andThen.
    + unfold loadForm. destruct (selected s); [|apply heap_frame_refl].
      destruct (_ !! _); apply heap_frame_refl.
    + intros s1. apply (frame_state_set _ (hide_menu s1)).
  - apply frame_state_set.
  - unfold onDiameterInput. destruct (selected s); cbn; heap_frame.
  - apply frame_andThen; [|apply frame_state_set].
    unfold logDiameterChange. destruct (selected s); [|apply heap_frame_refl].
    destruct (getAttribute_r _ _); [|apply heap_frame_refl].
    case_decide; apply heap_frame_refl.
  - apply frame_andThen.
    + destruct (pop (changes s)) as [[rest [c|c o d]]|]; cbn.
      * unfold removeCircle. cbn. case_decide; cbn; heap_frame.
      * heap_frame.
      * apply heap_frame_refl.
    + intros s1. case_decide; apply heap_frame_refl.
  - apply frame_andThen.
    + destruct (pop (changesUndone s)) as [[rest [c|c o d]]|]; cbn; heap_frame.
    + intros s1. case_decide; apply heap_frame_refl.
Qed.

Lemma frame_run evs s : heap_frame (heap s) (heap (final (run evs s))).
Proof.
  revert s. induction evs as [|ev evs IH]; intros s; cbn.
  - apply heap_frame_refl.
  - apply frame_andThen; [apply frame_dispatch | apply IH].
Qed.

Lemma frame_trace s evs s' : trace s evs s' -> heap_frame (heap s) (heap s').
Proof.
  induction 1 as [|s ev s1 evs s2 [_ Hd] _ IH]; [apply heap_frame_refl|].
  eapply heap_frame_trans; [|done].
  pose proof (frame_dispatch ev s) as H. by rewrite Hd in H.
Qed.

(** C9.  [onSvgClick] creates one element and writes the click coordinates
    to its [cx] and [cy]; whatever handler runs afterwards, and whatever
    sequence of handlers, on whatever state, returning or raising, every
    element that exists keeps its [cx], [cy], [fill] and [stroke]: of the
    attributes written at creation only [r] is written again. *)
Theorem position_set_once_never_modified :
  (∀ x y s, ∃ s' c,
     onSvgClick x y s = Ok s'
     ∧ length (heap s') = S (length (heap s))
     ∧ heap s' !! length (heap s) = Some c
     ∧ attr_cx c = x ∧ attr_cy c = y ∧ attr_r c = DEFAULT_DIAMETER)
  ∧ (∀ ev s h c, heap s !! h = Some c ->
       ∃ c', heap (final (dispatch ev s)) !! h = Some c'
             ∧ same_fixed_attrs c c')
  ∧ (∀ evs s h c, heap s !! h = Some c ->
       ∃ c', heap (final (run evs s)) !! h = Some c'
             ∧ same_fixed_attrs c c').
Proof.
  split; [|split].
  - intros x y s. eexists _, _. split; [reflexivity|]. cbn.
    rewrite alter_snoc_last, length_app. cbn.
    split; [lia|]. rewrite lookup_app_r, Nat.sub_diag by lia. cbn.
    split; [reflexivity | done].
  - intros ev s. apply frame_dispatch.
  - intros evs s. apply frame_run.
Qed.

Lemma position_set_once_never_modified_witness :
  ∃ c c', heap resized_example !! 0 = Some c
          ∧ heap (final (run [UndoClick; RedoClick; UndoClick] resized_example))
              !! 0 = Some c'
          ∧ same_fixed_attrs c c'.
Proof.
  destruct (heap resized_example !! 0) as [c|] eqn:Hc; [|vm_compute in Hc; done].
  destruct (proj2 (proj2 position_set_once_never_modified)
              [UndoClick; RedoClick; UndoClick] resized_example 0 c Hc)
    as (c' & Hc' & Hsame).
  exists c, c'. split; [reflexivity|]. split; [exact Hc' | exact Hsame].
Defined.

(** ** The UI state machine *)

Lemma state_set_default_value s s' :
  state_set states.default s = Ok s' -> value s' = states.default.
Proof.
  unfold state_set, onStateChange, deselect. cbn.
  repeat case_decide; cbn; destruct (selected s); cbn; intros [= <-]; done.
Qed.

Lemma andThen_Ok o k s' :
  o >>= k = Ok s' -> ∃ s1, o = Ok s1 ∧ k s1 = Ok s'.
Proof. destruct o; cbn; [eauto | done]. Qed.

Lemma locked_of_not_default s :
  reachable s -> value s ≠ states.default -> locked s.
Proof.
  intros HI%inv_reachable Hv.
  destruct (inv_ui _ HI) as [(?&_)|[(_&_&_&_&?)|(_&_&_&_&?)]]; done.
Qed.

(** C8, as the claim has it, fails: with the menu open on the first of two
    circles, the handler of a right click on the second returns, with the
    menu open and the second circle selected. *)
Lemma undefined_trigger_is_performed :
  value menu_open_example = states.menuOpen
  ∧ circle <$> selected menu_open_example = Some 0
  ∧ ∃ s', onCircleRightClick 1 menu_open_example = Ok s'
          ∧ value s' = states.menuOpen
          ∧ circle <$> selected s' = Some 1.
Proof. vm_compute. repeat split. eexists. repeat split. Qed.

(** C8, amended.  [state.set] does not check the requested transition
    against the current state: its outcome does not depend on [state.value].
    A request for [menuOpen] or [formOpen] is performed from every state.  A
    request for [default] is performed whenever a circle is selected, and
    raises a [TypeError] (the null dereference in [deselect], after
    [default] has been stored) when none is.  A target that is none of the
    three states raises the "Unknown state" error, after it has been
    stored.  These are all the cases: [state.set] returns exactly when the
    target is [menuOpen] or [formOpen], or is [default] with a circle
    selected.  So the handler of a right click on an existing circle
    returns from every state, [menuOpen] and [formOpen] included, with the
    menu open on that circle.  The page keeps the trigger away: in every
    reachable state other than [default] no right click on a circle is
    delivered. *)
Theorem state_set_checks_target_only :
  (∀ s, ∃ s', state_set states.menuOpen s = Ok s'
              ∧ value s' = states.menuOpen)
  ∧ (∀ s, ∃ s', state_set states.formOpen s = Ok s'
                ∧ value s' = states.formOpen)
  ∧ (∀ s sel, selected s = Some sel ->
       ∃ s', state_set states.default s = Ok s'
             ∧ value s' = states.default)
  ∧ (∀ s v, v ≠ states.default -> v ≠ states.menuOpen ->
            v ≠ states.formOpen ->
       state_set v s
       = Throw (ErrorMsg ("Unknown state: " ++ v)%string) (set_value v s))
  ∧ (∀ s c, c < length (heap s) ->
       ∃ s', onCircleRightClick c s = Ok s'
             ∧ value s' = states.menuOpen
             ∧ circle <$> selected s' = Some c)
  ∧ (∀ s c, reachable s -> value s ≠ states.default ->
       enabled s (CircleRightClick c) = false)
  ∧ (∀ s, selected s = None ->
       ∃ s', state_set states.default s = Throw TypeError s'
             ∧ value s' = states.default)
  ∧ (∀ s v, (∃ s', state_set v s = Ok s')
            ↔ v = states.menuOpen ∨ v = states.formOpen
              ∨ (v = states.default ∧ selected s ≠ None))
  ∧ (∀ s v w, state_set v (set_value w s) = state_set v s).
Proof.
  assert (Hmenu : ∀ s, ∃ s', state_set states.menuOpen s = Ok s'
                             ∧ value s' = states.menuOpen).
  { intros s. eexists. split; [reflexivity|]. done. }
  assert (Hform : ∀ s, ∃ s', state_set states.formOpen s = Ok s'
                             ∧ value s' = states.formOpen).
  { intros s. eexists. split; [reflexivity|]. done. }
  assert (Hdef : ∀ s sel, selected s = Some sel ->
            ∃ s', state_set states.default s = Ok s'
                  ∧ value s' = states.default).
  { intros s sel Hsel.
    destruct (state_set_default_selected s sel Hsel) as (s' & Hs' & _).
    exists s'. split; [done|]. by eapply state_set_default_value. }
  assert (Hunknown : ∀ s v, v ≠ states.default -> v ≠ states.menuOpen ->
            v ≠ states.formOpen ->
            state_set v s
            = Throw (ErrorMsg ("Unknown state: " ++ v)%string) (set_value v s)).
  { intros s v H1 H2 H3. unfold state_set, onStateChange.
    by rewrite !decide_False by done. }
  assert (Hnone : ∀ s, selected s = None ->
            ∃ s', state_set states.default s = Throw TypeError s'
                  ∧ value s' = states.default).
  { intros s Hsel. unfold state_set, onStateChange, deselect. cbn.
    destruct (decide (changes s ≠ [])); destruct (decide (changesUndone _ ≠ []));
      cbn; rewrite Hsel; eexists; (split; [reflexivity|]); done. }
  split; [done|]. split; [done|]. split; [done|]. split; [done|].
  split; [|split; [|split; [done|split]]].
  - intros s c [e He]%lookup_lt_is_Some_2.
    unfold onCircleRightClick, select, getAttribute_r. cbn.
    rewrite list_lookup_alter_eq, He. cbn.
    eexists. split; [reflexivity|]. done.
  - intros s c Hr Hv. destruct (locked_of_not_default s Hr Hv) as (Hsd & _).
    cbn. by rewrite Hsd.
  - intros s v. split.
    + intros [s' Hs'].
      destruct (decide (v = states.menuOpen)) as [?|Hm]; [by left|].
      destruct (decide (v = states.formOpen)) as [?|Hf]; [by right; left|].
      right. right.
      destruct (decide (v = states.default)) as [->|Hd].
      * split; [done|]. intros Hsel.
        destruct (Hnone s Hsel) as (t & Ht & _). congruence.
      * rewrite (Hunknown s v Hd Hm Hf) in Hs'. discriminate Hs'.
    + intros [->|[->|[-> Hsel]]].
      * destruct (Hmenu s) as (s' & ? & _). eauto.
      * destruct (Hform s) as (s' & ? & _). eauto.
      * destruct (selected s) as [sel|] eqn:Hs; [|done].
        destruct (Hdef s sel Hs) as (s' & ? & _). eauto.
  - intros s v w. reflexivity.
Qed.

Lemma state_set_checks_target_only_witness :
  selected menu_open_example
  = Some (mkSelection 0 (DEFAULT_DIAMETER * num 2)%Qc)
  ∧ ∃ s', state_set states.default menu_open_example = Ok s'
          ∧ value s' = states.default.
Proof.
  split; [vm_compute; reflexivity|].
  apply (proj1 (proj2 (proj2 state_set_checks_target_only))
           menu_open_example (mkSelection 0 (DEFAULT_DIAMETER * num 2)%Qc)).
  vm_compute. reflexivity.
Defined.

(** ** Control enablement *)

Lemma enabled_iff_stack s :
  reachable s -> value s = states.default ->
  (enabled s UndoClick = true ↔ changes s ≠ [])
  ∧ (enabled s RedoClick = true ↔ changesUndone s ≠ []).
Proof.
  intros HI%inv_reachable Hv.
  destruct (ui_default_of_value s (inv_ui _ HI) Hv) as (_&_&_&_&Hu&Hr).
  cbn. rewrite Hu, Hr, !negb_true_iff, !bool_decide_eq_false. done.
Qed.

Lemma log_operation_default s ev s' :
  Inv s -> step s ev s' -> log_operation ev = true ->
  value s' = states.default.
Proof.
  intros HI [He Hd] Hop. destruct ev; try discriminate Hop; cbn in Hd.
  - apply negb_true_iff in He.
    destruct (ui_default_of_svg s (inv_ui _ HI) He) as (Hv & _).
    injection Hd as <-. done.
  - apply andThen_Ok in Hd as (s1 & _ & Hs').
    by eapply state_set_default_value.
  - destruct (enabled_undo_default s HI He) as (Hv & l & x & Hch).
    destruct (inv_undo s l x HI Hv Hch) as (s1 & Hs1 & _ & _ & _ & _ & ?).
    congruence.
  - destruct (enabled_redo_default s HI He) as (Hv & u & x & Hcu).
    destruct (inv_redo s u x HI Hv Hcu) as (s1 & Hs1 & _ & _ & _ & _ & ?).
    congruence.
Qed.

(** C2.  After every operation of a sequence of record, undo and redo
    operations performed on the page as loaded, that is after every such
    operation the page delivers in a reachable state, the undo control is
    enabled if and only if [changes] is non-empty and the redo control is
    enabled if and only if [changesUndone] is non-empty; so the page
    delivers the next undo (redo) exactly when the undo (redo) stack is
    non-empty. *)
Theorem enablement_mirrors_stacks s ev s' :
  reachable s -> step s ev s' -> log_operation ev = true ->
  (undo_disabled s' = false ↔ changes s' ≠ [])
  ∧ (redo_disabled s' = false ↔ changesUndone s' ≠ [])
  ∧ (enabled s' UndoClick = true ↔ changes s' ≠ [])
  ∧ (enabled s' RedoClick = true ↔ changesUndone s' ≠ []).
Proof.
  intros Hr Hstep Hop.
  assert (Hr' : reachable s').
  { eapply reachable_trace; [done|]. econstructor; [done | constructor]. }
  pose proof (log_operation_default s ev s' (inv_reachable _ Hr) Hstep Hop) as Hv.
  destruct (enabled_iff_stack s' Hr' Hv) as [Hu Hd].
  split; [|split; [|done]].
  - cbn in Hu. by rewrite negb_true_iff in Hu.
  - cbn in Hd. by rewrite negb_true_iff in Hd.
Qed.

Lemma enablement_mirrors_stacks_witness :
  (undo_disabled undone_example = false ↔ changes undone_example ≠ [])
  ∧ (redo_disabled undone_example = false ↔ changesUndone undone_example ≠ [])
  ∧ (enabled undone_example UndoClick = true ↔ changes undone_example ≠ [])
  ∧ (enabled undone_example RedoClick = true
     ↔ changesUndone undone_example ≠ []).
Proof.
  apply (enablement_mirrors_stacks one_circle_example UndoClick undone_example).
  - apply (reachable_play [SvgClick (num 10) (num 10)]). vm_compute. reflexivity.
  - split; vm_compute; reflexivity.
  - reflexivity.
Defined.

(** ** Round trip and rewind *)

Lemma alter_alter_id {A} (f g : A -> A) (l : list A) i :
  (∀ x, l !! i = Some x -> f (g x) = x) -> alter f i (alter g i l) = l.
Proof.
  intros H. rewrite list_alter_alter_eq.
  rewrite (list_alter_ext (f ∘ g) id l l i); [|done..].
  by apply list_alter_id.
Qed.

Lemma state_eq a b :
  selected a = selected b -> changesUndone a = changesUndone b ->
  changes a = changes b -> value a = value b -> heap a = heap b ->
  svg_children a = svg_children b -> svg_disabled a = svg_disabled b ->
  form_hidden a = form_hidden b -> menu_hidden a = menu_hidden b ->
  undo_disabled a = undo_disabled b -> redo_disabled a = redo_disabled b ->
  input_value a = input_value b -> label_coords a = label_coords b ->
  a = b.
Proof. destruct a, b. cbn. intros. by subst. Qed.

Lemma undo_redo_id s l x :
  Inv s -> value s = states.default -> changes s = l ++ [x] ->
  ∃ s1, onUndoClick s = Ok s1 ∧ onRedoClick s1 = Ok s
        ∧ undo_disabled s = false ∧ redo_disabled s1 = false.
Proof.
  intros HI Hv Hch.
  destruct (ui_default_of_value s (inv_ui _ HI) Hv)
    as (Hsel & Hm & Hf & Hsd & Hud & Hrd).
  destruct HI as [Hkids Hlog Hlis Hcls Hrad _].
  unfold timeline in Hlog. rewrite Hch in Hkids, Hlog, Hud.
  rewrite added_app in Hkids.
  rewrite bool_decide_eq_false_2 in Hud by apply snoc_neq_nil.
  assert (Hrad' : ∀ h c, heap s !! h = Some c ->
                         attr_r c = radius_after (l ++ [x]) h).
  { intros h c Hh. rewrite <- Hch. apply Hrad; [done|].
    unfold editing. rewrite Hv. by intros [? _]. }
  pose proof (timeline_top_changes _ _ _ _ Hlog) as [Hl Hx].
  clear Hlog Hrad Hcls.
  destruct s as [sel cu ch v hp kids sd fh mh ud rd iv lc]. cbn in *. subst.
  unfold onUndoClick. cbn. rewrite pop_snoc.
  destruct x as [c|c o d]; cbn in *.
  - destruct Hx as [Hlt Hfresh].
    unfold removeCircle. cbn.
    rewrite decide_True by (rewrite elem_of_app, list_elem_of_singleton; auto).
    cbn. rewrite (filter_ne_snoc c (added l) Hfresh).
    assert (Hhp : alter (with_listeners true) c (alter (with_listeners false) c hp) = hp).
    { apply alter_alter_id. intros e He. destruct (Hlis c e He) as [H1 H2].
      rewrite bool_decide_eq_true_2 in H1, H2
        by (rewrite elem_of_app, list_elem_of_singleton; auto).
      destruct e. cbn in *. by subst. }
    destruct (decide (l = [])); cbn; eexists; (split; [reflexivity|]).
    all: unfold onRedoClick; cbn; rewrite pop_snoc; cbn.
    all: split; [|done].
    all: f_equal; apply state_eq; case_decide; cbn; try done.
    all: try (by rewrite (filter_ne_absent c (added l) Hfresh)).
    all: try (by rewrite bool_decide_eq_true_2).
    all: by rewrite bool_decide_eq_false_2.
  - destruct Hx as [Hin Ho].
    assert (Hhp : alter (with_r (d / num 2)%Qc) c
                    (alter (with_r (o / num 2)%Qc) c hp) = hp).
    { apply alter_alter_id. intros e He. pose proof (Hrad' c e He) as Hr.
      rewrite radius_after_snoc in Hr. cbn in Hr.
      rewrite decide_True in Hr by done.
      destruct e. cbn in *. by subst. }
    destruct (decide (l = [])); cbn; eexists; (split; [reflexivity|]).
    all: unfold onRedoClick; cbn; rewrite pop_snoc; cbn.
    all: split; [|done].
    all: f_equal; apply state_eq; case_decide; cbn; try done.
    all: try (by rewrite app_nil_r).
    all: try (by rewrite bool_decide_eq_true_2).
    all: by rewrite bool_decide_eq_false_2.
Qed.

Lemma step_deterministic s ev s1 s2 : step s ev s1 -> step s ev s2 -> s1 = s2.
Proof. intros [_ H1] [_ H2]. congruence. Qed.

(** C5.  In a reachable state with a non-empty undo stack, an undo followed
    by a redo, both delivered by the page, ends in the state it started
    from: the whole state record is the same, so the two stacks, the circle
    elements with their radius, the surface and the enablement of the two
    controls are.  Whenever the undo control is enabled the page does
    deliver both, and in the [default] state it is enabled (in [menuOpen]
    and [formOpen] the two controls are disabled). *)
Theorem undo_then_redo_restores s :
  reachable s -> changes s ≠ [] ->
  (∀ s1 s2, step s UndoClick s1 -> step s1 RedoClick s2 -> s2 = s)
  ∧ (enabled s UndoClick = true ->
     ∃ s1, step s UndoClick s1 ∧ step s1 RedoClick s)
  ∧ (value s = states.default -> enabled s UndoClick = true).
Proof.
  intros HI%inv_reachable Hne.
  assert (Hdef : value s = states.default ->
                 ∃ s1, step s UndoClick s1 ∧ step s1 RedoClick s).
  { intros Hv. destruct (snoc_cases (changes s)) as [?|(l & x & Hch)]; [done|].
    destruct (undo_redo_id s l x HI Hv Hch) as (s1 & Hu & Hr & Hud & Hrd).
    exists s1. split; (split; [|done]); cbn; by rewrite ?Hud, ?Hrd. }
  split; [|split].
  - intros s1 s2 Hu Hr.
    destruct (enabled_undo_default s HI (proj1 Hu)) as [Hv _].
    destruct (Hdef Hv) as (s1' & Hu' & Hr').
    rewrite <- (step_deterministic _ _ _ _ Hu Hu') in Hr'.
    by eapply step_deterministic.
  - intros He. destruct (enabled_undo_default s HI He) as [Hv _]. auto.
  - intros Hv. destruct (Hdef Hv) as (s1 & [He _] & _). done.
Qed.

Lemma undo_then_redo_restores_witness :
  changes resized_example ≠ []
  ∧ enabled resized_example UndoClick = true
  ∧ ∃ s1, step resized_example UndoClick s1
          ∧ step s1 RedoClick resized_example.
Proof.
  assert (Hne : changes resized_example ≠ []) by (vm_compute; discriminate).
  split; [exact Hne|]. split; [vm_compute; reflexivity|].
  refine (proj1 (proj2 (undo_then_redo_restores resized_example _ Hne)) _).
  - apply (reachable_play
             [SvgClick (num 10) (num 10); CircleRightClick 0;
              AdjustDiameterClick; DiameterInput (num 30); FormCloseClick]).
    vm_compute. reflexivity.
  - vm_compute. reflexivity.
Defined.

Lemma state_set_changes v s s' :
  state_set v s = Ok s' -> changes s' = changes s.
Proof.
  unfold state_set, onStateChange, deselect.
  repeat case_decide; cbn; try destruct (selected s); cbn;
    intros [= <-]; done.
Qed.

(** An event other than undo and redo lengthens the undo stack by one when
    it is an edit and leaves its length alone otherwise. *)
Lemma edit_step_length s ev s' :
  dispatch ev s = Ok s' -> undo_or_redo ev = false ->
  length (changes s') = length (changes s) + (if is_edit s ev then 1 else 0).
Proof.
  intros Hd Hnu. destruct ev; try discriminate Hnu; cbn in Hd |- *.
  - injection Hd as <-. cbn. by rewrite length_app.
  - injection Hd as <-. lia.
  - apply andThen_Ok in Hd as (s1 & Hs1 & Hs').
    apply state_set_changes in Hs'. rewrite Hs'.
    unfold select in Hs1. destruct (getAttribute_r _ _); [|done].
    injection Hs1 as <-. cbn. lia.
  - apply andThen_Ok in Hd as (s1 & Hs1 & Hs').
    apply state_set_changes in Hs'. rewrite Hs'.
    unfold loadForm in Hs1. destruct (selected s); [|done].
    destruct (_ !! _); [|done]. injection Hs1 as <-. cbn. lia.
  - apply state_set_changes in Hd. rewrite Hd. lia.
  - unfold onDiameterInput in Hd. destruct (selected s); [|done].
    injection Hd as <-. cbn. lia.
  - apply andThen_Ok in Hd as (s1 & Hs1 & Hs').
    apply state_set_changes in Hs'. rewrite Hs'.
    unfold logDiameterChange in Hs1. destruct (selected s); [|done].
    destruct (getAttribute_r _ _); [|done].
    destruct (decide _) as [Hne|Heq] in Hs1; injection Hs1 as <-.
    + rewrite bool_decide_eq_true_2 by done. cbn. by rewrite length_app.
    + rewrite bool_decide_eq_false_2 by done. lia.
Qed.

Lemma edits_trace_length s evs s' :
  trace s evs s' -> Forall (λ ev, undo_or_redo ev = false) evs ->
  length (changes s') = length (changes s) + count_edits s evs.
Proof.
  induction 1 as [|s ev s1 evs s2 [He Hd] _ IH]; intros Hall; cbn.
  - lia.
  - apply Forall_cons in Hall as [Hev Hall].
    rewrite Hd. cbn. rewrite (IH Hall), (edit_step_length s ev s1 Hd Hev). lia.
Qed.

(** As many undos as there are records, from the [default] state. *)
Lemma rewind l : ∀ s,
  Inv s -> value s = states.default -> changes s = l ->
  ∃ s', trace s (replicate (length l) UndoClick) s'
        ∧ Inv s' ∧ value s' = states.default ∧ changes s' = [].
Proof.
  induction l as [|x l IH] using rev_ind; intros s HI Hv Hch.
  - exists s. cbn. split; [constructor | done].
  - destruct (inv_undo s l x HI Hv Hch) as (s1 & Hs1 & HI1 & Hch1 & _ & _ & Hv1).
    destruct (IH s1 HI1 Hv1 Hch1) as (s' & Ht & ?).
    exists s'. split; [|done].
    rewrite length_app, Nat.add_1_r. cbn.
    econstructor; [|done]. split; [|done].
    destruct (ui_default_of_value s (inv_ui _ HI) Hv) as (_&_&_&_&Hud&_).
    cbn. rewrite Hud, Hch. rewrite bool_decide_eq_false_2 by apply snoc_neq_nil.
    done.
Qed.

Lemma default_of_empty_log s : Inv s -> changes s = [] -> value s = states.default.
Proof.
  intros HI Hch. pose proof (inv_children _ HI) as Hk. rewrite Hch in Hk.
  destruct (inv_ui _ HI) as [(?&_)|[(_&(sel&_&Hin&_)&_)|(_&(sel&_&Hin&_)&_)]];
    [done| |]; rewrite Hk in Hin; by apply elem_of_nil in Hin.
Qed.

(** In the [default] state with nothing to undo every circle element is as
    [createCircle] made it, up to the attributes no handler writes. *)
Lemma circle_of_empty_log s h c :
  Inv s -> changes s = [] -> heap s !! h = Some c ->
  attr_r c = DEFAULT_DIAMETER ∧ class_selected c = false
  ∧ on_click c = false ∧ on_contextmenu c = false.
Proof.
  intros HI Hch Hc. pose proof (default_of_empty_log s HI Hch) as Hv.
  destruct (ui_default_of_value s (inv_ui _ HI) Hv) as (Hsel&_).
  pose proof (inv_children _ HI) as Hk. rewrite Hch in Hk.
  destruct (inv_listen _ HI h c Hc) as [H1 H2].
  pose proof (inv_class _ HI h c Hc) as H3.
  pose proof (inv_radius _ HI h c Hc) as H4.
  rewrite Hk in H1, H2. rewrite Hsel in H3. rewrite Hch in H4.
  repeat split; try done.
  apply H4. unfold editing. rewrite Hv. by intros [? _].
Qed.

(** C6.  From a reachable state with an empty undo stack, let the page
    deliver any events other than undo and redo, N of them edits (circle
    additions and form closes with a changed diameter), ending in the
    [default] state.  Then the page delivers N undos in a row, after which
    the undo stack is empty again, the surface holds what it held before
    the first edit (no circle added in the sequence is left on it, and each
    has the radius it was created with) and every circle element that
    existed before the first edit is as it was, radius included. *)
Theorem full_rewind s0 evs s1 :
  reachable s0 -> changes s0 = [] ->
  trace s0 evs s1 -> Forall (λ ev, undo_or_redo ev = false) evs ->
  value s1 = states.default ->
  ∃ s2, trace s1 (replicate (count_edits s0 evs) UndoClick) s2
        ∧ changes s2 = []
        ∧ svg_children s2 = svg_children s0
        ∧ (∀ h c, heap s2 !! h = Some c -> length (heap s0) ≤ h ->
             (h ∉ svg_children s2) ∧ attr_r c = DEFAULT_DIAMETER)
        ∧ (∀ h c, heap s0 !! h = Some c -> heap s2 !! h = Some c).
Proof.
  intros HI0%inv_reachable Hch0 Ht Hall Hv1.
  pose proof (inv_trace _ _ _ Ht HI0) as HI1.
  pose proof (edits_trace_length _ _ _ Ht Hall) as Hlen.
  rewrite Hch0 in Hlen. cbn in Hlen. rewrite <- Hlen.
  destruct (rewind (changes s1) s1 HI1 Hv1 eq_refl) as (s2 & Ht2 & HI2 & Hv2 & Hch2).
  exists s2. split; [done|]. split; [done|].
  pose proof (inv_children _ HI0) as Hk0. rewrite Hch0 in Hk0.
  pose proof (inv_children _ HI2) as Hk2. rewrite Hch2 in Hk2.
  split; [by rewrite Hk0, Hk2|].
  split.
  { intros h c Hc _. split; [rewrite Hk2; apply not_elem_of_nil|].
    by destruct (circle_of_empty_log s2 h c HI2 Hch2 Hc) as (?&_). }
  intros h c Hc.
  assert (Hfr : heap_frame (heap s0) (heap s2)).
  { eapply heap_frame_trans; by eapply frame_trace. }
  destruct (Hfr h c Hc) as (c2 & Hc2 & Hcx & Hcy & Hfill & Hstroke).
  destruct (circle_of_empty_log s0 h c HI0 Hch0 Hc) as (?&?&?&?).
  destruct (circle_of_empty_log s2 h c2 HI2 Hch2 Hc2) as (?&?&?&?).
  rewrite Hc2. f_equal. destruct c, c2. cbn in *. congruence.
Qed.

Lemma full_rewind_witness :
  changes undone_example = []
  ∧ value (state_after [SvgClick (num 10) (num 10); UndoClick;
                        SvgClick (num 50) (num 50); CircleRightClick 1;
                        AdjustDiameterClick; DiameterInput (num 30);
                        FormCloseClick])
    = states.default
  ∧ ∃ s2, changes s2 = []
          ∧ svg_children s2 = svg_children undone_example
          ∧ (∀ h c, heap undone_example !! h = Some c ->
                    heap s2 !! h = Some c).
Proof.
  split; [reflexivity|]. split; [vm_compute; reflexivity|].
  destruct (full_rewind undone_example
              [SvgClick (num 50) (num 50); CircleRightClick 1;
               AdjustDiameterClick; DiameterInput (num 30); FormCloseClick]
              (state_after [SvgClick (num 10) (num 10); UndoClick;
                            SvgClick (num 50) (num 50); CircleRightClick 1;
                            AdjustDiameterClick; DiameterInput (num 30);
                            FormCloseClick]))
    as (s2 & _ & Hch & Hk & _ & Hh).
  - apply (reachable_play [SvgClick (num 10) (num 10); UndoClick]).
    vm_compute. reflexivity.
  - reflexivity.
  - apply play_trace. vm_compute. reflexivity.
  - repeat constructor.
  - vm_compute. reflexivity.
  - exists s2. split; [exact Hch|]. split; [exact Hk | exact Hh].
Defined.

(** The scenario of the specification: two circles placed, two undos, one
    redo. *)
Example place_place_undo_undo_redo :
  let a := SvgClick (num 10) (num 10) in
  let b := SvgClick (num 50) (num 50) in
  svg_children (state_after [a; b]) = [0; 1]
  ∧ svg_children (state_after [a; b; UndoClick]) = [0]
  ∧ svg_children (state_after [a; b; UndoClick; UndoClick]) = []
  ∧ svg_children (state_after [a; b; UndoClick; UndoClick; RedoClick]) = [0]
  ∧ (attr_cx <$> heap (state_after [a; b; UndoClick; UndoClick; RedoClick]) !! 0)
    = Some (num 10).
Proof. vm_compute. repeat split. Qed.

(** A circle is created with its radius attribute, not its diameter, set to
    [DEFAULT_DIAMETER]: the diameter the script reads back is twice that. *)
Example new_circle_diameter :
  getDiameter 0 one_circle_example = Some (DEFAULT_DIAMETER * num 2)%Qc.
Proof. vm_compute. reflexivity. Qed.

(** ** Further properties of the handlers, in every state *)

Lemma alter_with_r_twice (hp : list Circle) c (a b : Qc) :
  alter (with_r b) c (alter (with_r a) c hp) = alter (with_r b) c hp.
Proof. rewrite list_alter_alter_eq. by apply list_alter_ext. Qed.

(** X1.  Only the last slider value counts: an input event handled after
    another leaves the state the second one alone would leave, in every
    state (with nothing selected both raise and change nothing).  With a
    circle selected the handler returns and writes nothing but the radius
    of that circle: both stacks, the selection, the surface and every other
    element are as before, and the diameter of the selected circle is the
    slider value. *)
Theorem slider_input_last_wins :
  (∀ s v1 v2, onDiameterInput v1 s >>= onDiameterInput v2 = onDiameterInput v2 s)
  ∧ (∀ s v sel, selected s = Some sel ->
       ∃ s', onDiameterInput v s = Ok s'
             ∧ changes s' = changes s ∧ changesUndone s' = changesUndone s
             ∧ selected s' = selected s ∧ svg_children s' = svg_children s
             ∧ undo_disabled s' = undo_disabled s
             ∧ redo_disabled s' = redo_disabled s
             ∧ (∀ h, h ≠ circle sel -> heap s' !! h = heap s !! h)
             ∧ (circle sel < length (heap s) ->
                getDiameter (circle sel) s' = Some v)).
Proof.
  split.
  - intros s v1 v2. unfold onDiameterInput.
    destruct (selected s) as [sel|] eqn:Hsel; cbn; [|done].
    rewrite Hsel. f_equal. apply state_eq; cbn; try done.
    apply alter_with_r_twice.
  - intros s v sel Hsel. unfold onDiameterInput. rewrite Hsel.
    eexists. split; [reflexivity|]. cbn. repeat split; try done.
    + intros h Hne. by apply list_lookup_alter_ne.
    + intros Hlt. unfold getDiameter, getAttribute_r. cbn.
      by apply diameter_of_alter_r.
Qed.

Lemma slider_input_last_wins_witness :
  selected form_open_example
  = Some (mkSelection 0 (DEFAULT_DIAMETER * num 2)%Qc)
  ∧ ∃ s', onDiameterInput (num 40) form_open_example = Ok s'
          ∧ getDiameter 0 s' = Some (num 40).
Proof.
  split; [vm_compute; reflexivity|].
  destruct (proj2 slider_input_last_wins form_open_example (num 40)
              (mkSelection 0 (DEFAULT_DIAMETER * num 2)%Qc))
    as (s' & Hs' & _ & _ & _ & _ & _ & _ & _ & Hd).
  - vm_compute. reflexivity.
  - exists s'. split; [exact Hs'|]. apply Hd. vm_compute. lia.
Defined.

Lemma state_set_final_frame v s :
  changes (final (state_set v s)) = changes s
  ∧ changesUndone (final (state_set v s)) = changesUndone s
  ∧ svg_children (final (state_set v s)) = svg_children s.
Proof.
  unfold state_set, onStateChange, deselect.
  repeat case_decide; cbn; try destruct (selected s); cbn; done.
Qed.

Lemma final_andThen_Ok o k s1 : o = Ok s1 -> final (o >>= k) = final (k s1).
Proof. by intros ->. Qed.

(** X2.  Neither undo nor redo goes through [state.set]: in every state,
    returning or raising, [onUndoClick] and [onRedoClick] leave the
    selection, [state.value], the visibility of the menu and of the form,
    the surface lock and the form fields as they are, and they neither
    create nor drop a circle element. *)
Theorem undo_redo_leave_ui_state s ev :
  undo_or_redo ev = true ->
  let s' := final (dispatch ev s) in
  selected s' = selected s ∧ value s' = value s
  ∧ menu_hidden s' = menu_hidden s ∧ form_hidden s' = form_hidden s
  ∧ svg_disabled s' = svg_disabled s
  ∧ input_value s' = input_value s ∧ label_coords s' = label_coords s
  ∧ length (heap s') = length (heap s).
Proof.
  intros Hev. destruct ev; try discriminate Hev; cbn.
  - unfold onUndoClick.
    destruct (pop (changes s)) as [[rest [c|c o d]]|]; cbn.
    + unfold removeCircle. cbn.
      destruct (decide (c ∈ svg_children s)); cbn;
        [case_decide|]; cbn; by rewrite length_alter.
    + case_decide; cbn; by rewrite length_alter.
    + case_decide; cbn; done.
  - unfold onRedoClick.
    destruct (pop (changesUndone s)) as [[rest [c|c o d]]|]; cbn;
      case_decide; cbn; by rewrite ?length_alter.
Qed.

Lemma undo_redo_leave_ui_state_witness :
  value (final (dispatch UndoClick menu_open_example)) = states.menuOpen
  ∧ selected (final (dispatch UndoClick menu_open_example))
    = selected menu_open_example.
Proof.
  destruct (undo_redo_leave_ui_state menu_open_example UndoClick eq_refl)
    as (Hsel & Hv & _).
  split; [exact Hv | exact Hsel].
Defined.

(** X3.  Undo and redo only move the boundary between the two stacks: in
    every state, returning or raising, the applied records followed by the
    undone ones in reverse are the same list before and after; undo takes
    one record off [changes] when there is one and redo one off
    [changesUndone]. *)
Theorem undo_redo_keep_timeline s :
  timeline (final (onUndoClick s)) = timeline s
  ∧ length (changes (final (onUndoClick s))) = pred (length (changes s))
  ∧ timeline (final (onRedoClick s)) = timeline s
  ∧ length (changesUndone (final (onRedoClick s)))
    = pred (length (changesUndone s)).
Proof.
  unfold timeline. repeat split.
  - destruct (snoc_cases (changes s)) as [Hch|(l & x & Hch)].
    + destruct (onUndoClick_empty s Hch) as (s' & -> & H1 & H2 & _). cbn.
      by rewrite H1, H2, Hch.
    + unfold onUndoClick. rewrite Hch, pop_snoc. destruct x as [c|c o d]; cbn.
      * unfold removeCircle. cbn.
        destruct (decide (c ∈ svg_children s)); cbn; [case_decide|]; cbn;
          by rewrite timeline_shift.
      * case_decide; cbn; by rewrite timeline_shift.
  - destruct (snoc_cases (changes s)) as [Hch|(l & x & Hch)].
    + destruct (onUndoClick_empty s Hch) as (s' & -> & H1 & _). cbn.
      by rewrite H1, Hch.
    + unfold onUndoClick. rewrite Hch, pop_snoc, length_app, Nat.add_1_r.
      destruct x as [c|c o d]; cbn.
      * unfold removeCircle. cbn.
        destruct (decide (c ∈ svg_children s)); cbn; [case_decide|]; done.
      * case_decide; done.
  - destruct (snoc_cases (changesUndone s)) as [Hcu|(u & x & Hcu)].
    + destruct (onRedoClick_empty s Hcu) as (s' & -> & H1 & H2 & _). cbn.
      by rewrite H1, H2, Hcu.
    + unfold onRedoClick. rewrite Hcu, pop_snoc.
      destruct x as [c|c o d]; cbn; case_decide; cbn; apply timeline_shift.
  - destruct (snoc_cases (changesUndone s)) as [Hcu|(u & x & Hcu)].
    + destruct (onRedoClick_empty s Hcu) as (s' & -> & _ & H2 & _). cbn.
      by rewrite H2, Hcu.
    + unfold onRedoClick. rewrite Hcu, pop_snoc, length_app, Nat.add_1_r.
      destruct x as [c|c o d]; cbn; case_decide; done.
Qed.

(** X4.  The redo stack grows by undo alone: in every state, returning or
    raising, every other handler leaves [changesUndone] as it is, empties
    it or takes its last record off. *)
Theorem only_undo_extends_redo_stack s ev :
  ev ≠ UndoClick ->
  let u' := changesUndone (final (dispatch ev s)) in
  u' = changesUndone s ∨ u' = []
  ∨ ∃ x, changesUndone s = u' ++ [x].
Proof.
  intros Hev. destruct ev; try done; cbn.
  - by right; left.
  - by left.
  - left. unfold onCircleRightClick, select.
    destruct (getAttribute_r _ _); cbn; [|done].
    by rewrite (proj1 (proj2 (state_set_final_frame _ _))).
  - left. unfold onAdjustDiameterClick, loadForm.
    destruct (selected s); [|done]. destruct (_ !! _); [|done]. cbn.
    by rewrite (proj1 (proj2 (state_set_final_frame _ _))).
  - left. unfold onMenuCloseClick.
    by rewrite (proj1 (proj2 (state_set_final_frame _ _))).
  - left. unfold onDiameterInput. by destruct (selected s).
  - unfold onFormCloseClick, logDiameterChange.
    destruct (selected s); [|by left].
    destruct (getAttribute_r _ _); [|by left].
    case_decide; cbn; rewrite (proj1 (proj2 (state_set_final_frame _ _)));
      [by right; left | by left].
  - destruct (snoc_cases (changesUndone s)) as [Hcu|(u & x & Hcu)].
    + destruct (onRedoClick_empty s Hcu) as (s' & Hs' & _ & Hu & _).
      rewrite Hs'. cbn. by right; left.
    + right. right. exists x.
      destruct x as [c|c o d].
      * destruct (onRedoClick_added s u c Hcu) as (s' & Hs' & _ & Hu & _).
        rewrite Hs'. cbn. by rewrite Hu.
      * destruct (onRedoClick_diameter s u c o d Hcu) as (s' & Hs' & _ & Hu & _).
        rewrite Hs'. cbn. by rewrite Hu.
Qed.

Lemma only_undo_extends_redo_stack_witness :
  changesUndone (final (dispatch (SvgClick (num 1) (num 1)) undone_example))
  = [].
Proof.
  destruct (only_undo_extends_redo_stack undone_example
              (SvgClick (num 1) (num 1))) as [H|[H|(x & H)]].
  - discriminate.
  - vm_compute in H. discriminate H.
  - exact H.
  - vm_compute. reflexivity.
Defined.

(** X5.  With nothing selected, the handlers of the menu and of the form
    raise a [TypeError]: [onAdjustDiameterClick], [onDiameterInput] and
    [onFormCloseClick] before they have written anything, and
    [onMenuCloseClick] after it has stored [default], enabled the undo and
    redo controls that have something on their stack and unlocked the
    surface, and before it has hidden the menu or the form. *)
Theorem no_selection_raises_TypeError s :
  selected s = None ->
  onAdjustDiameterClick s = Throw TypeError s
  ∧ (∀ v, onDiameterInput v s = Throw TypeError s)
  ∧ onFormCloseClick s = Throw TypeError s
  ∧ ∃ s', onMenuCloseClick s = Throw TypeError s'
          ∧ value s' = states.default
          ∧ svg_disabled s' = false
          ∧ menu_hidden s' = menu_hidden s
          ∧ form_hidden s' = form_hidden s
          ∧ changes s' = changes s ∧ changesUndone s' = changesUndone s
          ∧ heap s' = heap s ∧ svg_children s' = svg_children s
          ∧ undo_disabled s'
            = (if decide (changes s ≠ []) then false else undo_disabled s)
          ∧ redo_disabled s'
            = (if decide (changesUndone s ≠ []) then false
               else redo_disabled s).
Proof.
  intros Hsel. repeat split.
  - unfold onAdjustDiameterClick, loadForm. by rewrite Hsel.
  - intros v. unfold onDiameterInput. by rewrite Hsel.
  - unfold onFormCloseClick, logDiameterChange. by rewrite Hsel.
  - unfold onMenuCloseClick, state_set, onStateChange, deselect. cbn.
    destruct (decide (changes s ≠ [])); destruct (decide (changesUndone _ ≠ []));
      cbn; rewrite Hsel; cbn; eexists; (split; [reflexivity|]); cbn;
      by rewrite ?decide_True, ?decide_False by done.
Qed.

Lemma no_selection_raises_TypeError_witness :
  selected nothing_selected_example = None
  ∧ onFormCloseClick nothing_selected_example
    = Throw TypeError nothing_selected_example.
Proof.
  split; [reflexivity|].
  apply (no_selection_raises_TypeError nothing_selected_example).
  reflexivity.
Defined.

(** X6.  [onUndoClick] is not atomic: when the record on top of the undo
    stack adds a circle that is not on the surface, [removeChild] raises
    [NotFoundError] after the record has been moved to the redo stack and
    the listeners of the circle have been removed, and before the
    enablement of the two controls is updated. *)
Theorem undo_of_detached_circle_raises s l c :
  changes s = l ++ [CircleAdded c] -> c ∉ svg_children s ->
  ∃ s', onUndoClick s = Throw NotFoundError s'
        ∧ changes s' = l
        ∧ changesUndone s' = changesUndone s ++ [CircleAdded c]
        ∧ svg_children s' = svg_children s
        ∧ heap s' = alter (with_listeners false) c (heap s)
        ∧ undo_disabled s' = undo_disabled s
        ∧ redo_disabled s' = redo_disabled s.
Proof.
  intros Hch Hc. unfold onUndoClick. rewrite Hch, pop_snoc.
  unfold removeCircle. cbn. rewrite decide_False by done. cbn.
  eexists. split; [reflexivity|]. done.
Qed.

Lemma undo_of_detached_circle_raises_witness :
  changes detached_top_example = [] ++ [CircleAdded 0]
  ∧ (0 ∉ svg_children detached_top_example)
  ∧ ∃ s', onUndoClick detached_top_example = Throw NotFoundError s'
          ∧ changes s' = [].
Proof.
  assert (H0 : 0 ∉ svg_children detached_top_example).
  { vm_compute. intros H. inversion H. }
  split; [reflexivity|]. split; [exact H0|].
  destruct (undo_of_detached_circle_raises detached_top_example [] 0 eq_refl H0)
    as (s' & Hs' & Hch & _).
  exists s'. split; [exact Hs' | exact Hch].
Defined.

(** ** Further properties of the reachable states *)

(** X7.  No event the page delivers in a reachable state makes its handler
    raise: the handler returns, in a reachable state. *)
Theorem delivered_events_never_raise s ev :
  reachable s -> enabled s ev = true ->
  ∃ s', dispatch ev s = Ok s' ∧ reachable s'.
Proof.
  intros Hr He.
  destruct (inv_step s ev (inv_reachable s Hr) He) as (s' & Hd & _).
  exists s'. split; [done|].
  eapply reachable_trace; [done|]. econstructor; [by split | constructor].
Qed.

Lemma delivered_events_never_raise_witness :
  enabled menu_open_example MenuCloseClick = true
  ∧ ∃ s', dispatch MenuCloseClick menu_open_example = Ok s' ∧ reachable s'.
Proof.
  split; [vm_compute; reflexivity|].
  apply delivered_events_never_raise.
  - apply (reachable_play [SvgClick (num 10) (num 10);
                           SvgClick (num 50) (num 50); CircleRightClick 0]).
    vm_compute. reflexivity.
  - vm_compute. reflexivity.
Defined.

Lemma log_ok_NoDup n l : log_ok n l -> NoDup (added l).
Proof.
  induction 1 as [|l c Hl IH Hc Hn|l c o d Hl IH Hc Ho];
    rewrite ?added_app; cbn.
  - constructor.
  - apply NoDup_app. split; [done|]. split; [|apply NoDup_singleton].
    intros h Hh ->%list_elem_of_singleton. done.
  - by rewrite app_nil_r.
Qed.

(** X8.  In every reachable state the children of the surface are the
    circles of the [CircleAdded] records of the undo stack, in the order of
    the records; no circle is on the surface twice and every circle on it
    is an element the script created. *)
Theorem surface_shows_added_circles s :
  reachable s ->
  svg_children s = added (changes s)
  ∧ NoDup (svg_children s)
  ∧ ∀ h, h ∈ svg_children s -> h < length (heap s).
Proof.
  intros HI%inv_reachable. pose proof (inv_children _ HI) as Hk.
  pose proof (log_ok_app_l _ _ _ (inv_log _ HI)) as Hlog.
  split; [done|]. rewrite Hk. split.
  - by eapply log_ok_NoDup.
  - intros h. by apply log_ok_added_lt.
Qed.

Lemma surface_shows_added_circles_witness :
  svg_children resized_example = added (changes resized_example)
  ∧ NoDup (svg_children resized_example)
  ∧ ∀ h, h ∈ svg_children resized_example -> h < length (heap resized_example).
Proof.
  apply surface_shows_added_circles.
  apply (reachable_play
           [SvgClick (num 10) (num 10); CircleRightClick 0;
            AdjustDiameterClick; DiameterInput (num 30); FormCloseClick]).
  vm_compute. reflexivity.
Defined.

(** X9.  In every reachable state the radius of a circle element is the one
    the undo stack determines: [DEFAULT_DIAMETER] after which the
    [DiameterChange] records of the circle are applied in order; the one
    exception is the circle the open form is editing. *)
Theorem radius_is_replay_of_undo_stack s h c :
  reachable s -> heap s !! h = Some c ->
  ¬ (value s = states.formOpen ∧ circle <$> selected s = Some h) ->
  attr_r c = radius_after (changes s) h.
Proof. intros HI%inv_reachable Hc Hed. by apply (inv_radius _ HI). Qed.

Lemma radius_is_replay_of_undo_stack_witness :
  ∃ c, heap resized_example !! 0 = Some c
       ∧ attr_r c = radius_after (changes resized_example) 0.
Proof.
  destruct (heap resized_example !! 0) as [c|] eqn:Hc; [|vm_compute in Hc; done].
  exists c. split; [reflexivity|].
  apply (radius_is_replay_of_undo_stack resized_example 0 c); [|exact Hc|].
  - apply (reachable_play
             [SvgClick (num 10) (num 10); CircleRightClick 0;
              AdjustDiameterClick; DiameterInput (num 30); FormCloseClick]).
    vm_compute. reflexivity.
  - intros [Hv _]. vm_compute in Hv. discriminate Hv.
Defined.

(** X10.  In every reachable state a circle element has its [click] and
    [contextmenu] listeners exactly when it is on the surface, and carries
    the [selected] class exactly when it is the selected circle; so at most
    one circle is marked, and none in the [default] state. *)
Theorem listeners_and_mark_follow_state s h c :
  reachable s -> heap s !! h = Some c ->
  (on_click c = true ↔ h ∈ svg_children s)
  ∧ (on_contextmenu c = true ↔ h ∈ svg_children s)
  ∧ (class_selected c = true ↔ circle <$> selected s = Some h)
  ∧ (value s = states.default -> class_selected c = false).
Proof.
  intros HI%inv_reachable Hc.
  destruct (inv_listen _ HI h c Hc) as [-> ->].
  rewrite (inv_class _ HI h c Hc), !bool_decide_eq_true.
  repeat split; try done.
  intros Hv. destruct (ui_default_of_value s (inv_ui _ HI) Hv) as (-> & _).
  by apply bool_decide_eq_false.
Qed.

Lemma listeners_and_mark_follow_state_witness :
  ∃ c, heap menu_open_example !! 0 = Some c
       ∧ (class_selected c = true
          ↔ circle <$> selected menu_open_example = Some 0).
Proof.
  destruct (heap menu_open_example !! 0) as [c|] eqn:Hc;
    [|vm_compute in Hc; done].
  exists c. split; [reflexivity|].
  apply (listeners_and_mark_follow_state menu_open_example 0 c); [|exact Hc].
  apply (reachable_play [SvgClick (num 10) (num 10);
                         SvgClick (num 50) (num 50); CircleRightClick 0]).
  vm_compute. reflexivity.
Defined.

(** X11.  In every reachable state the controls are as the entry actions of
    [state.value] leave them.  In [default] nothing is selected, the menu
    and the form are hidden and the surface is unlocked.  In [menuOpen] a
    circle on the surface is selected, the menu is shown, the form hidden,
    the surface locked and both controls disabled.  In [formOpen] a circle
    on the surface is selected, the form is shown, the menu hidden, the
    surface locked and both controls disabled.  The selection snapshot is
    the diameter the circle had when it was selected.  No other value of
    [state.value] is reached. *)
Theorem controls_follow_state_value s :
  reachable s ->
  (value s = states.default ∧ selected s = None
   ∧ menu_hidden s = true ∧ form_hidden s = true ∧ svg_disabled s = false)
  ∨ ((value s = states.menuOpen ∧ menu_hidden s = false ∧ form_hidden s = true
      ∨ value s = states.formOpen ∧ menu_hidden s = true ∧ form_hidden s = false)
     ∧ svg_disabled s = true ∧ undo_disabled s = true ∧ redo_disabled s = true
     ∧ ∃ sel, selected s = Some sel
              ∧ circle sel ∈ svg_children s
              ∧ diameter sel
                = (radius_after (changes s) (circle sel) * num 2)%Qc).
Proof.
  intros HI%inv_reachable.
  destruct (inv_ui _ HI)
    as [(?&?&?&?&?&_)|[(?&?&?&?&?&?&?)|(?&?&?&?&?&?&?)]];
    [left | right | right]; repeat split; auto.
Qed.

Lemma controls_follow_state_value_witness :
  value menu_open_example = states.menuOpen
  ∧ undo_disabled menu_open_example = true.
Proof.
  split; [reflexivity|].
  destruct (controls_follow_state_value menu_open_example)
    as [(Hv & _)|(_ & _ & Hud & _)].
  - apply (reachable_play [SvgClick (num 10) (num 10);
                           SvgClick (num 50) (num 50); CircleRightClick 0]).
    vm_compute. reflexivity.
  - vm_compute in Hv. discriminate Hv.
  - exact Hud.
Defined.

Lemma no_noop_snoc l x :
  no_noop_change (l ++ [x]) ↔
  no_noop_change l
  ∧ match x with CircleAdded _ => True | DiameterChange _ o d => o ≠ d end.
Proof.
  unfold no_noop_change. setoid_rewrite elem_of_app.
  setoid_rewrite list_elem_of_singleton. split.
  - intros H. split; [eauto|]. destruct x; eauto.
  - intros [Hl Hx] c o d [?| <-]; eauto.
Qed.

Lemma no_noop_nil : no_noop_change [].
Proof. intros c o d H. by apply elem_of_nil in H. Qed.

Lemma no_noop_dispatch ev s :
  no_noop_change (changes s) -> no_noop_change (changesUndone s) ->
  no_noop_change (changes (final (dispatch ev s)))
  ∧ no_noop_change (changesUndone (final (dispatch ev s))).
Proof.
  intros Hc Hu. destruct ev; cbn [dispatch].
  - cbn. split; [|apply no_noop_nil]. by apply no_noop_snoc.
  - done.
  - unfold onCircleRightClick, select.
    destruct (getAttribute_r _ _); cbn; [|done].
    destruct (state_set_final_frame states.menuOpen
                (set_selected (Some (mkSelection c (q * num 2)%Qc))
                   (classList_selected c true s))) as (-> & -> & _). done.
  - unfold onAdjustDiameterClick, loadForm.
    destruct (selected s); [|done]. destruct (_ !! _); [|done]. cbn.
    match goal with |- context [state_set ?v ?t] =>
      destruct (state_set_final_frame v t) as (-> & -> & _) end. done.
  - unfold onMenuCloseClick.
    destruct (state_set_final_frame states.default s) as (-> & -> & _). done.
  - unfold onDiameterInput. by destruct (selected s).
  - unfold onFormCloseClick, logDiameterChange.
    destruct (selected s); [|done]. destruct (getAttribute_r _ _); [|done].
    case_decide; cbn;
      match goal with |- context [state_set ?v ?t] =>
        destruct (state_set_final_frame v t) as (-> & -> & _) end; cbn.
    + split; [|apply no_noop_nil]. apply no_noop_snoc. split; [done|].
      by apply not_eq_sym.
    + done.
  - destruct (snoc_cases (changes s)) as [Hch|(l & x & Hch)].
    + destruct (onUndoClick_empty s Hch) as (s' & -> & H1 & H2 & _). cbn.
      rewrite H1, H2. split; [apply no_noop_nil | done].
    + rewrite Hch in Hc. apply no_noop_snoc in Hc as [Hl Hx].
      unfold onUndoClick. rewrite Hch, pop_snoc. destruct x as [c|c o d]; cbn.
      * unfold removeCircle. cbn.
        destruct (decide (c ∈ svg_children s)); cbn; [case_decide|]; cbn;
          (split; [done|]); by apply no_noop_snoc.
      * case_decide; cbn; (split; [done|]); by apply no_noop_snoc.
  - destruct (snoc_cases (changesUndone s)) as [Hcu|(u & x & Hcu)].
    + destruct (onRedoClick_empty s Hcu) as (s' & -> & H1 & H2 & _). cbn.
      rewrite H1, H2. split; [done | apply no_noop_nil].
    + rewrite Hcu in Hu. apply no_noop_snoc in Hu as [Hl Hx].
      unfold onRedoClick. rewrite Hcu, pop_snoc.
      destruct x as [c|c o d]; cbn; case_decide; cbn;
        (split; [|done]); by apply no_noop_snoc.
Qed.

Lemma no_noop_run evs s :
  no_noop_change (changes s) -> no_noop_change (changesUndone s) ->
  no_noop_change (changes (final (run evs s)))
  ∧ no_noop_change (changesUndone (final (run evs s))).
Proof.
  revert s. induction evs as [|ev evs IH]; intros s Hc Hu; cbn; [done|].
  destruct (no_noop_dispatch ev s Hc Hu) as [Hc' Hu'].
  destruct (dispatch ev s) as [s1|e s1]; cbn in *; [by apply IH | done].
Qed.

(** X12.  Neither stack ever holds a diameter change from a diameter to
    itself: whatever sequence of handlers runs from the page as loaded,
    whether the page would deliver the events or not, every
    [DiameterChange] record of [changes] and of [changesUndone] has an
    [oldDiameter] different from its [newDiameter]. *)
Theorem logs_hold_no_noop_change evs :
  no_noop_change (changes (state_after evs))
  ∧ no_noop_change (changesUndone (state_after evs)).
Proof. apply no_noop_run; apply no_noop_nil. Qed.

(** X13.  In every reachable state the records of both stacks, read in the
    order they were first written, are consistent: a [CircleAdded] record
    is for a circle element that exists and that no earlier record adds,
    and a [DiameterChange] record is for a circle an earlier record adds
    and starts from the diameter the records before it leave. *)
Theorem log_records_are_consistent s l1 x l2 :
  reachable s -> timeline s = l1 ++ x :: l2 ->
  match x with
  | CircleAdded c => c < length (heap s) ∧ c ∉ added l1
  | DiameterChange c o _ =>
      c ∈ added l1 ∧ o = (radius_after l1 c * num 2)%Qc
  end.
Proof.
  intros HI%inv_reachable Ht. pose proof (inv_log _ HI) as Hlog.
  rewrite Ht in Hlog.
  replace (l1 ++ x :: l2) with ((l1 ++ [x]) ++ l2) in Hlog
    by (by rewrite <- app_assoc).
  apply log_ok_app_l, log_ok_snoc_inv in Hlog as [_ Hx]. done.
Qed.

Lemma log_records_are_consistent_witness :
  timeline resized_example
  = [CircleAdded 0]
    ++ DiameterChange 0 (DEFAULT_DIAMETER * num 2)%Qc
         (num 30 / num 2 * num 2)%Qc :: []
  ∧ 0 ∈ added [CircleAdded 0]
  ∧ (DEFAULT_DIAMETER * num 2)%Qc
    = (radius_after [CircleAdded 0] 0 * num 2)%Qc.
Proof.
  split; [vm_compute; reflexivity|].
  apply (log_records_are_consistent resized_example [CircleAdded 0]
           (DiameterChange 0 (DEFAULT_DIAMETER * num 2)%Qc
              (num 30 / num 2 * num 2)%Qc) []).
  - apply (reachable_play
             [SvgClick (num 10) (num 10); CircleRightClick 0;
              AdjustDiameterClick; DiameterInput (num 30); FormCloseClick]).
    vm_compute. reflexivity.
  - vm_compute. reflexivity.
Defined.

(** ** Further round trips *)

(** X14.  Opening the menu on a circle and closing it again changes
    nothing: in a reachable state in which the page delivers a right click
    on a circle, it then delivers the close of the menu, and the state after
    the two is the state before them, in every field. *)
Theorem menu_open_close_is_identity s c :
  reachable s -> enabled s (CircleRightClick c) = true ->
  ∃ s1, step s (CircleRightClick c) s1 ∧ step s1 MenuCloseClick s.
Proof.
  intros HI%inv_reachable He. pose proof He as He'. cbn in He'.
  apply andb_true_iff in He' as [[Hsd Hc]%andb_true_iff _].
  apply negb_true_iff in Hsd. apply bool_decide_eq_true in Hc.
  destruct (ui_default_of_svg s (inv_ui _ HI) Hsd) as (Hv & Hsel & Hm & Hf & Hud & Hrd).
  destruct (kid_allocated s c HI Hc) as [e Hl].
  pose proof (inv_class _ HI c e Hl) as Hcls. rewrite Hsel in Hcls.
  rewrite bool_decide_eq_false_2 in Hcls by done.
  assert (Hhp : alter (with_class_selected false) c
                  (alter (with_class_selected true) c (heap s)) = heap s).
  { apply alter_alter_id. intros x Hx. rewrite Hl in Hx. injection Hx as <-.
    destruct e. cbn in *. by subst. }
  cbn in He. rewrite Hl in He. cbn in He.
  unfold step. cbn [dispatch].
  unfold onCircleRightClick, select, getAttribute_r. cbn.
  rewrite list_lookup_alter_eq, Hl. cbn.
  eexists. split; [split; [exact He | reflexivity]|]. split; [done|].
  unfold onMenuCloseClick, state_set, onStateChange, deselect. cbn.
  destruct (decide (changes s ≠ [])) as [Hch|Hch];
    destruct (decide (changesUndone _ ≠ [])) as [Hcu|Hcu]; cbn in Hcu |- *.
  all: f_equal; apply state_eq; cbn; try done.
  all: repeat match goal with H : ¬ (_ ≠ _) |- _ => apply dec_stable in H end.
  all: try (rewrite Hud; symmetry; by apply bool_decide_eq_false).
  all: try (rewrite Hrd; symmetry; by apply bool_decide_eq_false).
  all: try (rewrite Hud; symmetry; by apply bool_decide_eq_true).
  all: rewrite Hrd; symmetry; by apply bool_decide_eq_true.
Qed.

Lemma menu_open_close_is_identity_witness :
  enabled resized_example (CircleRightClick 0) = true
  ∧ ∃ s1, step resized_example (CircleRightClick 0) s1
          ∧ step s1 MenuCloseClick resized_example.
Proof.
  split; [vm_compute; reflexivity|].
  apply menu_open_close_is_identity.
  - apply (reachable_play
             [SvgClick (num 10) (num 10); CircleRightClick 0;
              AdjustDiameterClick; DiameterInput (num 30); FormCloseClick]).
    vm_compute. reflexivity.
  - vm_compute. reflexivity.
Defined.

Lemma redo_undo_id s u x :
  Inv s -> value s = states.default -> changesUndone s = u ++ [x] ->
  ∃ s1, onRedoClick s = Ok s1 ∧ onUndoClick s1 = Ok s
        ∧ redo_disabled s = false ∧ undo_disabled s1 = false.
Proof.
  intros HI Hv Hcu.
  destruct (ui_default_of_value s (inv_ui _ HI) Hv)
    as (Hsel & Hm & Hf & Hsd & Hud & Hrd).
  destruct HI as [Hkids Hlog Hlis Hcls Hrad _].
  unfold timeline in Hlog. rewrite Hcu in Hlog, Hrd.
  rewrite bool_decide_eq_false_2 in Hrd by apply snoc_neq_nil.
  assert (Hrad' : ∀ h c, heap s !! h = Some c ->
                         attr_r c = radius_after (changes s) h).
  { intros h c Hh. apply Hrad; [done|].
    unfold editing. rewrite Hv. by intros [? _]. }
  pose proof (timeline_top_undone _ _ _ _ Hlog) as [Hl Hx].
  clear Hlog Hrad Hcls.
  destruct s as [sel cu ch v hp kids sd fh mh ud rd iv lc]. cbn in *. subst.
  unfold onRedoClick. cbn. rewrite pop_snoc.
  destruct x as [c|c o d]; cbn in *.
  - destruct Hx as [Hlt Hfresh].
    assert (Hhp : alter (with_listeners false) c
                    (alter (with_listeners true) c hp) = hp).
    { apply alter_alter_id. intros e He. destruct (Hlis c e He) as [H1 H2].
      rewrite bool_decide_eq_false_2 in H1, H2 by done.
      destruct e. cbn in *. by subst. }
    destruct (decide (u = [])); cbn; eexists; (split; [reflexivity|]).
    all: unfold onUndoClick; cbn; rewrite pop_snoc; cbn.
    all: unfold removeCircle; cbn.
    all: rewrite (filter_ne_absent c (added ch) Hfresh).
    all: rewrite decide_True
           by (rewrite elem_of_app, list_elem_of_singleton; auto).
    all: cbn; split; [|done].
    all: f_equal; apply state_eq; case_decide; cbn; try done.
    all: try (by rewrite (filter_ne_snoc c (added ch) Hfresh)).
    all: try (by rewrite bool_decide_eq_true_2).
    all: by rewrite bool_decide_eq_false_2.
  - destruct Hx as [Hin Ho].
    assert (Hhp : alter (with_r (o / num 2)%Qc) c
                    (alter (with_r (d / num 2)%Qc) c hp) = hp).
    { apply alter_alter_id. intros e He. pose proof (Hrad' c e He) as Hr.
      rewrite Ho, half_double. destruct e. cbn in *. by subst. }
    destruct (decide (u = [])); cbn; eexists; (split; [reflexivity|]).
    all: unfold onUndoClick; cbn; rewrite pop_snoc; cbn.
    all: split; [|done].
    all: f_equal; apply state_eq; case_decide; cbn; try done.
    all: try (by rewrite bool_decide_eq_true_2).
    all: by rewrite bool_decide_eq_false_2.
Qed.

(** X15.  In a reachable state in which the page delivers a redo, a redo
    followed by an undo ends in the state it started from, in every field:
    the page delivers both, and whatever states the two steps go through,
    the last one is the first. *)
Theorem redo_then_undo_restores s :
  reachable s -> enabled s RedoClick = true ->
  (∃ s1, step s RedoClick s1 ∧ step s1 UndoClick s)
  ∧ (∀ s1 s2, step s RedoClick s1 -> step s1 UndoClick s2 -> s2 = s).
Proof.
  intros HI%inv_reachable He.
  destruct (enabled_redo_default s HI He) as (Hv & u & x & Hcu).
  destruct (redo_undo_id s u x HI Hv Hcu) as (s1 & Hr & Hu & Hrd & Hud).
  assert (H1 : step s RedoClick s1) by (by split).
  assert (H2 : step s1 UndoClick s) by (split; [cbn; by rewrite Hud | done]).
  split; [eauto|].
  intros t1 t2 Ht1 Ht2.
  rewrite <- (step_deterministic _ _ _ _ H1 Ht1) in Ht2.
  by eapply step_deterministic.
Qed.

Lemma redo_then_undo_restores_witness :
  enabled undone_example RedoClick = true
  ∧ ∃ s1, step undone_example RedoClick s1 ∧ step s1 UndoClick undone_example.
Proof.
  split; [vm_compute; reflexivity|].
  refine (proj1 (redo_then_undo_restores undone_example _ _)).
  - apply (reachable_play [SvgClick (num 10) (num 10); UndoClick]).
    vm_compute. reflexivity.
  - vm_compute. reflexivity.
Defined.

Lemma trace_snoc s evs s1 ev s2 :
  trace s evs s1 -> step s1 ev s2 -> trace s (evs ++ [ev]) s2.
Proof.
  intros H1 H2. eapply trace_app; [done|]. econstructor; [done | constructor].
Qed.

Lemma undo_k_redo_k k : ∀ s,
  Inv s -> value s = states.default -> k ≤ length (changes s) ->
  trace s (replicate k UndoClick ++ replicate k RedoClick) s.
Proof.
  induction k as [|k IH]; intros s HI Hv Hk; [constructor|].
  destruct (snoc_cases (changes s)) as [Hch|(l & x & Hch)].
  { rewrite Hch in Hk. cbn in Hk. lia. }
  destruct (undo_redo_id s l x HI Hv Hch) as (s1 & Hu & Hr & Hud & Hrd).
  destruct (inv_undo s l x HI Hv Hch) as (s1' & Hu' & HI1 & Hch1 & _ & _ & Hv1).
  assert (s1' = s1) as -> by congruence.
  rewrite (replicate_S_end k RedoClick), app_assoc. cbn.
  change (trace s ((UndoClick :: replicate k UndoClick ++ replicate k RedoClick)
                   ++ [RedoClick]) s).
  apply (trace_snoc _ _ s1); [|split; [cbn; by rewrite Hrd | done]].
  econstructor; [split; [cbn; by rewrite Hud | done]|].
  apply IH; [done..|]. rewrite Hch1. rewrite Hch, length_app in Hk. cbn in Hk. lia.
Qed.

(** X16.  In a reachable [default] state any number k of undos, up to the
    length of the undo stack, followed by k redos, is delivered by the page
    and ends in the state it started from, in every field. *)
Theorem undos_then_redos_restore s k :
  reachable s -> value s = states.default -> k ≤ length (changes s) ->
  trace s (replicate k UndoClick ++ replicate k RedoClick) s.
Proof. intros HI%inv_reachable. by apply undo_k_redo_k. Qed.

Lemma undos_then_redos_restore_witness :
  trace resized_example
    (replicate 2 UndoClick ++ replicate 2 RedoClick) resized_example.
Proof.
  apply undos_then_redos_restore.
  - apply (reachable_play
             [SvgClick (num 10) (num 10); CircleRightClick 0;
              AdjustDiameterClick; DiameterInput (num 30); FormCloseClick]).
    vm_compute. reflexivity.
  - vm_compute. reflexivity.
  - vm_compute. lia.
Defined.

(** ** The diameter edit, from right click to form close *)

Lemma play_step s ev s1 evs :
  enabled s ev = true -> dispatch ev s = Ok s1 ->
  play (ev :: evs) s = play evs s1.
Proof. intros He Hd. cbn. by rewrite He, Hd. Qed.

Lemma play_app evs1 evs2 s s1 :
  play evs1 s = Some s1 -> play (evs1 ++ evs2) s = play evs2 s1.
Proof.
  revert s. induction evs1 as [|ev evs1 IH]; intros s; cbn.
  - by intros [= ->].
  - destruct (enabled s ev); [|done]. destruct (dispatch ev s); [|done].
    apply IH.
Qed.

Lemma setAttribute_r_twice c a b s :
  setAttribute_r c b (setAttribute_r c a s) = setAttribute_r c b s.
Proof. apply state_eq; cbn; try done. apply alter_with_r_twice. Qed.

(** The slider moved through [vs] while the form is open. *)
Lemma play_inputs vs : ∀ s sel,
  form_hidden s = false -> selected s = Some sel ->
  play (DiameterInput <$> vs) s
  = Some (match last vs with
          | Some v => setAttribute_r (circle sel) (v / num 2)%Qc s
          | None => s
          end).
Proof.
  induction vs as [|v vs IH] using rev_ind; intros s sel Hf Hsel; [done|].
  rewrite fmap_app, last_snoc. cbn [fmap list_fmap].
  erewrite play_app; [|by apply IH].
  assert (Hstep : ∀ t, form_hidden t = false -> selected t = Some sel ->
            play [DiameterInput v] t
            = Some (setAttribute_r (circle sel) (v / num 2)%Qc t)).
  { intros t Ht Hs. cbn. unfold onDiameterInput. by rewrite Ht, Hs. }
  destruct (last vs) as [w|].
  - rewrite Hstep by done. by rewrite setAttribute_r_twice.
  - by apply Hstep.
Qed.

Lemma alter_id_at {A} (f : A -> A) (l : list A) i :
  (∀ x, l !! i = Some x -> f x = x) -> alter f i l = l.
Proof.
  intros H. rewrite (list_alter_ext f id l l i); [|done..].
  by apply list_alter_id.
Qed.

Lemma state_set_default_fields s sel :
  selected s = Some sel ->
  ∃ s', state_set states.default s = Ok s'
    ∧ selected s' = None
    ∧ changesUndone s' = changesUndone s ∧ changes s' = changes s
    ∧ value s' = states.default
    ∧ heap s' = alter (with_class_selected false) (circle sel) (heap s)
    ∧ svg_children s' = svg_children s
    ∧ svg_disabled s' = false ∧ form_hidden s' = true ∧ menu_hidden s' = true
    ∧ undo_disabled s'
      = (if decide (changes s ≠ []) then false else undo_disabled s)
    ∧ redo_disabled s'
      = (if decide (changesUndone s ≠ []) then false else redo_disabled s)
    ∧ input_value s' = input_value s ∧ label_coords s' = label_coords s.
Proof.
  intros Hsel. unfold state_set, onStateChange, deselect. cbn.
  destruct (decide (changes s ≠ [])); destruct (decide (changesUndone _ ≠ []));
    cbn; rewrite Hsel; cbn; eexists; (split; [reflexivity|]); cbn;
    by rewrite ?decide_True, ?decide_False by done.
Qed.

Lemma edit_flow_play s c vs :
  Inv s -> enabled s (CircleRightClick c) = true ->
  ∃ e s', heap s !! c = Some e
    ∧ play (edit_flow c vs) s = Some s'
    ∧ (slider_value (attr_r e * num 2)%Qc vs = (attr_r e * num 2)%Qc ->
       s' = set_form_fields (attr_r e * num 2)%Qc (attr_cx e, attr_cy e) s)
    ∧ (slider_value (attr_r e * num 2)%Qc vs ≠ (attr_r e * num 2)%Qc ->
       s' = set_form_fields (attr_r e * num 2)%Qc (attr_cx e, attr_cy e)
              (resetChangesUndone
                 (logChange
                    (DiameterChange c (attr_r e * num 2)%Qc
                       (slider_value (attr_r e * num 2)%Qc vs))
                    (setAttribute_r c
                       (slider_value (attr_r e * num 2)%Qc vs / num 2)%Qc s)))).
Proof.
  intros HI He. pose proof He as He'. cbn in He'.
  apply andb_true_iff in He' as [[Hsd Hc]%andb_true_iff _].
  apply negb_true_iff in Hsd. apply bool_decide_eq_true in Hc.
  destruct (ui_default_of_svg s (inv_ui _ HI) Hsd)
    as (Hv & Hsel & Hm & Hf & Hud & Hrd).
  destruct (kid_allocated s c HI Hc) as [e Hl].
  pose proof (inv_class _ HI c e Hl) as Hcls. rewrite Hsel in Hcls.
  rewrite bool_decide_eq_false_2 in Hcls by done.
  exists e. set (d0 := (attr_r e * num 2)%Qc).
  unfold edit_flow. cbn [app].
  erewrite play_step; [|exact He|].
  2:{ cbn. unfold onCircleRightClick, select, getAttribute_r. cbn.
      rewrite list_lookup_alter_eq, Hl. cbn. reflexivity. }
  erewrite play_step; [|reflexivity|].
  2:{ cbn. unfold onAdjustDiameterClick, loadForm. cbn.
      rewrite list_lookup_alter_eq, Hl. cbn. reflexivity. }
  erewrite play_app;
    [|apply (play_inputs vs _ (mkSelection c d0)); reflexivity].
  cbn [circle]. unfold slider_value.
  subst d0. destruct (last vs) as [v|]; cbn [default from_option id].
  - assert (Hhp : alter (with_class_selected false) c
                    (alter (with_r (v / num 2)%Qc) c
                       (alter (with_class_selected true) c (heap s)))
                  = alter (with_r (v / num 2)%Qc) c (heap s)).
    { rewrite !list_alter_alter_eq. apply list_alter_ext; [|done].
      intros x Hx. rewrite Hl in Hx. injection Hx as <-.
      destruct e. cbn in *. by subst. }
    erewrite play_step; [|reflexivity|]; cbn [play].
    2:{ cbn [dispatch]. unfold onFormCloseClick, logDiameterChange, getAttribute_r.
        cbn. rewrite !list_lookup_alter_eq, Hl. cbn. rewrite double_half.
        destruct (decide (v ≠ (attr_r e * num 2)%Qc)) as [Hne|Heq]; cbn.
        all: match goal with |- state_set states.default ?T = _ =>
               destruct (state_set_default_fields T
                           (mkSelection c (attr_r e * num 2)%Qc) eq_refl)
                 as (s' & Hs' & Hf1 & Hf2 & Hf3 & Hf4 & Hf5 & Hf6 & Hf7 & Hf8
                     & Hf9 & Hf10 & Hf11 & Hf12 & Hf13) end.
        all: cbn in Hf2, Hf3, Hf5, Hf6, Hf10, Hf11, Hf12, Hf13.
        all: rewrite Hs'; f_equal.
        - instantiate (1 := set_form_fields (attr_r e * num 2)%Qc
             (attr_cx e, attr_cy e)
             (if decide (v ≠ (attr_r e * num 2)%Qc)
              then resetChangesUndone
                     (logChange (DiameterChange c (attr_r e * num 2)%Qc v)
                        (setAttribute_r c (v / num 2)%Qc s))
              else s)).
          rewrite decide_True by done.
          rewrite decide_True in Hf10 by apply snoc_neq_nil.
          apply state_eq; cbn;
            rewrite ?Hf1, ?Hf2, ?Hf3, ?Hf4, ?Hf5, ?Hf6, ?Hf7, ?Hf8, ?Hf9, ?Hf12, ?Hf13,
            ?Hhp, ?Hsel, ?Hv, ?Hm, ?Hf, ?Hsd, ?Hf10, ?Hf11; done.
        - rewrite decide_False by done. apply dec_stable in Heq.
          apply state_eq; cbn;
            rewrite ?Hf1, ?Hf2, ?Hf3, ?Hf4, ?Hf5, ?Hf6, ?Hf7, ?Hf8, ?Hf9, ?Hf12, ?Hf13,
            ?Hhp, ?Hsel, ?Hv, ?Hm, ?Hf, ?Hsd; try done.
          + apply alter_id_at. intros x Hx. rewrite Hl in Hx.
            injection Hx as <-. rewrite Heq, half_double. by destruct e.
          + rewrite Hf10, Hud. destruct (decide (changes s ≠ [])) as [H|H].
            * symmetry. by apply bool_decide_eq_false.
            * symmetry. apply bool_decide_eq_true. by apply dec_stable.
          + rewrite Hf11, Hrd. destruct (decide (changesUndone s ≠ [])) as [H|H].
            * symmetry. by apply bool_decide_eq_false.
            * symmetry. apply bool_decide_eq_true. by apply dec_stable. }
    eexists. split; [done|]. split; [reflexivity|]. split.
    + intros Heq. rewrite decide_False; [done|]. by intros H.
    + intros Hne. by rewrite decide_True.
  - assert (Hhp : alter (with_class_selected false) c
                    (alter (with_class_selected true) c (heap s)) = heap s).
    { apply alter_alter_id. intros x Hx. rewrite Hl in Hx. injection Hx as <-.
      destruct e. cbn in *. by subst. }
    erewrite play_step; [|reflexivity|]; cbn [play].
    2:{ cbn [dispatch]. unfold onFormCloseClick, logDiameterChange, getAttribute_r.
        cbn. rewrite !list_lookup_alter_eq, Hl. cbn.
        rewrite decide_False by (intros H; by apply H). cbn.
        match goal with |- state_set states.default ?T = _ =>
          destruct (state_set_default_fields T
                      (mkSelection c (attr_r e * num 2)%Qc) eq_refl)
            as (s' & Hs' & Hf1 & Hf2 & Hf3 & Hf4 & Hf5 & Hf6 & Hf7 & Hf8
                & Hf9 & Hf10 & Hf11 & Hf12 & Hf13) end.
        cbn in Hf2, Hf3, Hf5, Hf6, Hf10, Hf11, Hf12, Hf13.
        rewrite Hs'. f_equal.
        instantiate (1 := set_form_fields (attr_r e * num 2)%Qc
                            (attr_cx e, attr_cy e) s).
        apply state_eq; cbn;
            rewrite ?Hf1, ?Hf2, ?Hf3, ?Hf4, ?Hf5, ?Hf6, ?Hf7, ?Hf8, ?Hf9, ?Hf12, ?Hf13,
            ?Hhp, ?Hsel, ?Hv, ?Hm, ?Hf, ?Hsd; try done.
        - rewrite Hf10, Hud. destruct (decide (changes s ≠ [])) as [H|H].
          + symmetry. by apply bool_decide_eq_false.
          + symmetry. apply bool_decide_eq_true. by apply dec_stable.
        - rewrite Hf11, Hrd. destruct (decide (changesUndone s ≠ [])) as [H|H].
          + symmetry. by apply bool_decide_eq_false.
          + symmetry. apply bool_decide_eq_true. by apply dec_stable. }
    eexists. split; [done|]. split; [reflexivity|]. split; [done|].
    intros H. by destruct H.
Qed.

(** X17.  A diameter edit that ends with the slider away from the value
    [loadForm] gave it is recorded with that value.  In a reachable state
    in which the page delivers a right click on a circle, it delivers the
    whole edit (right click, "adjust diameter", any slider moves, form
    close); afterwards the undo stack has one more record, a
    [DiameterChange] of that circle from its diameter at selection to the
    last slider value, the redo stack is empty, the circle has the last
    slider value as diameter, undo is enabled and redo disabled, and the
    surface and every other circle element are as before. *)
Theorem diameter_edit_records_slider_value s c vs :
  reachable s -> enabled s (CircleRightClick c) = true ->
  ∃ e s', heap s !! c = Some e
    ∧ trace s (edit_flow c vs) s'
    ∧ (slider_value (attr_r e * num 2)%Qc vs ≠ (attr_r e * num 2)%Qc ->
       changes s'
       = changes s ++ [DiameterChange c (attr_r e * num 2)%Qc
                         (slider_value (attr_r e * num 2)%Qc vs)]
       ∧ changesUndone s' = []
       ∧ getDiameter c s' = Some (slider_value (attr_r e * num 2)%Qc vs)
       ∧ undo_disabled s' = false ∧ redo_disabled s' = true
       ∧ value s' = value s
       ∧ svg_children s' = svg_children s
       ∧ ∀ h, h ≠ c -> heap s' !! h = heap s !! h).
Proof.
  intros HI%inv_reachable He.
  destruct (edit_flow_play s c vs HI He) as (e & s' & Hl & Hp & _ & Hne).
  exists e, s'. split; [done|]. split; [by apply play_trace|].
  intros H. rewrite (Hne H). cbn. repeat split; try done.
  - unfold getDiameter, getAttribute_r. cbn. apply diameter_of_alter_r.
    by eapply lookup_lt_Some.
  - intros h Hh. by apply list_lookup_alter_ne.
Qed.

Lemma diameter_edit_records_slider_value_witness :
  enabled one_circle_example (CircleRightClick 0) = true
  ∧ ∃ e s', heap one_circle_example !! 0 = Some e
      ∧ trace one_circle_example (edit_flow 0 [num 40; num 30]) s'
      ∧ (slider_value (attr_r e * num 2)%Qc [num 40; num 30]
         ≠ (attr_r e * num 2)%Qc ->
         changes s'
         = changes one_circle_example
           ++ [DiameterChange 0 (attr_r e * num 2)%Qc
                 (slider_value (attr_r e * num 2)%Qc [num 40; num 30])]).
Proof.
  split; [vm_compute; reflexivity|].
  destruct (diameter_edit_records_slider_value one_circle_example 0
              [num 40; num 30]) as (e & s' & He & Ht & H).
  - apply (reachable_play [SvgClick (num 10) (num 10)]). vm_compute. reflexivity.
  - vm_compute. reflexivity.
  - exists e, s'. split; [exact He|]. split; [exact Ht|].
    intros Hne. exact (proj1 (H Hne)).
Defined.

(** X18.  A diameter edit that ends with the slider where [loadForm] put
    it, never moved or moved back, records nothing: the page delivers the
    whole edit, and the state after it is the state before it in every
    field but the two form fields, which hold the diameter and the position
    of the circle. *)
Theorem diameter_edit_without_change_is_identity s c vs :
  reachable s -> enabled s (CircleRightClick c) = true ->
  ∃ e s', heap s !! c = Some e
    ∧ trace s (edit_flow c vs) s'
    ∧ (slider_value (attr_r e * num 2)%Qc vs = (attr_r e * num 2)%Qc ->
       s' = set_form_fields (attr_r e * num 2)%Qc (attr_cx e, attr_cy e) s).
Proof.
  intros HI%inv_reachable He.
  destruct (edit_flow_play s c vs HI He) as (e & s' & Hl & Hp & Heq & _).
  exists e, s'. split; [done|]. split; [by apply play_trace | done].
Qed.

Lemma diameter_edit_without_change_is_identity_witness :
  enabled one_circle_example (CircleRightClick 0) = true
  ∧ ∃ e s', heap one_circle_example !! 0 = Some e
      ∧ trace one_circle_example
          (edit_flow 0 [num 40; (DEFAULT_DIAMETER * num 2)%Qc]) s'
      ∧ changes s' = changes one_circle_example.
Proof.
  split; [vm_compute; reflexivity|].
  destruct (diameter_edit_without_change_is_identity one_circle_example 0
              [num 40; (DEFAULT_DIAMETER * num 2)%Qc]) as (e & s' & He & Ht & H).
  - apply (reachable_play [SvgClick (num 10) (num 10)]). vm_compute. reflexivity.
  - vm_compute. reflexivity.
  - exists e, s'. split; [exact He|]. split; [exact Ht|].
    rewrite H; [reflexivity|].
    vm_compute in He. injection He as <-. vm_compute. reflexivity.
Defined.

(** X19.  The form of a circle that has just been placed shows twice
    [DEFAULT_DIAMETER] and the coordinates of the click: [createCircle]
    writes [DEFAULT_DIAMETER] to the radius attribute, and the diameter the
    script reads back is the radius doubled.  In a reachable state in which
    the page delivers a click on the surface, it then delivers a right
    click on the new circle and "adjust diameter", after which the form is
    shown with these values. *)
Theorem form_of_new_circle s x y :
  reachable s -> enabled s (SvgClick x y) = true ->
  ∃ s', trace s [SvgClick x y; CircleRightClick (length (heap s));
                 AdjustDiameterClick] s'
        ∧ form_hidden s' = false
        ∧ input_value s' = Some (DEFAULT_DIAMETER * num 2)%Qc
        ∧ label_coords s' = Some (x, y)
        ∧ selected s'
          = Some (mkSelection (length (heap s)) (DEFAULT_DIAMETER * num 2)%Qc).
Proof.
  intros HI%inv_reachable He.
  assert (Hfresh : length (heap s) ∉ svg_children s).
  { rewrite (inv_children _ HI). intros H%(added_lt_heap s); [lia | done]. }
  pose proof (filter_ne_absent _ _ Hfresh) as Hfil.
  pose proof He as Hsd. cbn in Hsd.
  assert (Hp : ∃ s', play [SvgClick x y; CircleRightClick (length (heap s));
                           AdjustDiameterClick] s = Some s'
             ∧ form_hidden s' = false
             ∧ input_value s' = Some (DEFAULT_DIAMETER * num 2)%Qc
             ∧ label_coords s' = Some (x, y)
             ∧ selected s'
               = Some (mkSelection (length (heap s))
                         (DEFAULT_DIAMETER * num 2)%Qc)).
  { erewrite play_step; [|exact He|reflexivity].
    erewrite play_step.
    2:{ cbn. rewrite Hsd, Hfil, alter_snoc_last. cbn.
        rewrite lookup_app_r, Nat.sub_diag by lia. cbn.
        rewrite bool_decide_eq_true_2; [done|].
        rewrite elem_of_app, list_elem_of_singleton. auto. }
    2:{ cbn. unfold onCircleRightClick, select, getAttribute_r. cbn.
        rewrite alter_snoc_last. cbn.
        rewrite list_lookup_alter_eq, lookup_app_r, Nat.sub_diag by lia.
        cbn. reflexivity. }
    erewrite play_step; [|reflexivity|].
    2:{ cbn. unfold onAdjustDiameterClick, loadForm. cbn.
        rewrite !alter_snoc_last.
        rewrite lookup_app_r, Nat.sub_diag by lia. cbn. reflexivity. }
    cbn. eexists. split; [reflexivity|]. done. }
  destruct Hp as (s' & Hp & ?). exists s'. split; [by apply play_trace | done].
Qed.

Lemma form_of_new_circle_witness :
  enabled one_circle_example (SvgClick (num 50) (num 60)) = true
  ∧ ∃ s', trace one_circle_example
            [SvgClick (num 50) (num 60); CircleRightClick 1;
             AdjustDiameterClick] s'
          ∧ input_value s' = Some (DEFAULT_DIAMETER * num 2)%Qc
          ∧ label_coords s' = Some (num 50, num 60).
Proof.
  split; [vm_compute; reflexivity|].
  destruct (form_of_new_circle one_circle_example (num 50) (num 60))
    as (s' & Ht & _ & Hi & Hlab & _).
  - apply (reachable_play [SvgClick (num 10) (num 10)]). vm_compute. reflexivity.
  - vm_compute. reflexivity.
  - exists s'. split; [exact Ht|]. split; [exact Hi | exact Hlab].
Defined.

Lemma undo_k k : ∀ s,
  Inv s -> value s = states.default -> k ≤ length (changes s) ->
  ∃ s1, trace s (replicate k UndoClick) s1 ∧ Inv s1
        ∧ value s1 = states.default
        ∧ changes s1 = take (length (changes s) - k) (changes s)
        ∧ changesUndone s1
          = changesUndone s
            ++ reverse (drop (length (changes s) - k) (changes s))
        ∧ length (heap s1) = length (heap s).
Proof.
  induction k as [|k IH]; intros s HI Hv Hk.
  - exists s. split; [constructor|]. rewrite Nat.sub_0_r, take_ge, drop_ge by lia.
    by rewrite app_nil_r.
  - destruct (snoc_cases (changes s)) as [Hch|(l & x & Hch)].
    { rewrite Hch in Hk. cbn in Hk. lia. }
    rewrite Hch, length_app in Hk. cbn in Hk.
    destruct (inv_undo s l x HI Hv Hch)
      as (s1 & Hu & HI1 & Hch1 & Hcu1 & Hlen1 & Hv1).
    destruct (IH s1 HI1 Hv1) as (s2 & Ht & HI2 & Hv2 & Hch2 & Hcu2 & Hlen2).
    { rewrite Hch1. lia. }
    exists s2. split.
    { cbn. econstructor; [|done]. split; [|done].
      destruct (ui_default_of_value s (inv_ui _ HI) Hv) as (_&_&_&_&Hud&_).
      cbn. rewrite Hud, Hch. by rewrite bool_decide_eq_false_2 by apply snoc_neq_nil. }
    split; [done|]. split; [done|].
    rewrite Hch2, Hcu2, Hcu1, Hch1, Hlen2, Hlen1, Hch, length_app. cbn.
    replace (length l + 1 - S k) with (length l - k) by lia.
    rewrite take_app_le, drop_app_le by lia.
    rewrite reverse_snoc, <- app_assoc. done.
Qed.

(** X20.  Undo travels back along the undo stack.  In a reachable
    [default] state the page delivers any number k of undos up to the
    length of the undo stack; afterwards the undo stack is its first n-k
    records, the redo stack has gained the other k in reverse order, the
    surface shows the circles those first records add and every circle
    element has the radius those first records leave. *)
Theorem undos_travel_back s k :
  reachable s -> value s = states.default -> k ≤ length (changes s) ->
  ∃ s1, trace s (replicate k UndoClick) s1
        ∧ changes s1 = take (length (changes s) - k) (changes s)
        ∧ changesUndone s1
          = changesUndone s
            ++ reverse (drop (length (changes s) - k) (changes s))
        ∧ svg_children s1
          = added (take (length (changes s) - k) (changes s))
        ∧ length (heap s1) = length (heap s)
        ∧ ∀ h c, heap s1 !! h = Some c ->
            attr_r c
            = radius_after (take (length (changes s) - k) (changes s)) h.
Proof.
  intros HI%inv_reachable Hv Hk.
  destruct (undo_k k s HI Hv Hk) as (s1 & Ht & HI1 & Hv1 & Hch1 & Hcu1 & Hlen1).
  exists s1. split; [done|]. split; [done|]. split; [done|].
  split; [by rewrite (inv_children _ HI1), Hch1|]. split; [done|].
  intros h c Hc. rewrite <- Hch1. apply (inv_radius _ HI1 h c Hc).
  unfold editing. rewrite Hv1. by intros [? _].
Qed.

Lemma undos_travel_back_witness :
  ∃ s1, trace resized_example (replicate 1 UndoClick) s1
        ∧ changes s1 = [CircleAdded 0]
        ∧ svg_children s1 = [0].
Proof.
  destruct (undos_travel_back resized_example 1)
    as (s1 & Ht & Hch & _ & Hk & _).
  - apply (reachable_play
             [SvgClick (num 10) (num 10); CircleRightClick 0;
              AdjustDiameterClick; DiameterInput (num 30); FormCloseClick]).
    vm_compute. reflexivity.
  - vm_compute. reflexivity.
  - vm_compute. lia.
  - exists s1. split; [exact Ht|]. split; [exact Hch | exact Hk].
Defined.
